(** * A shallow embedding of the wordle-bot feedback engines, consistency
    filter, guess scorer and game state, and the properties of its spec.

    Sources embedded:
    - [src/game/wordle_game.py]: [Color], [WordleGame._get_feedback],
      [is_valid_guess], [_is_valid_hard_mode], [_update_keyboard_state],
      [make_guess], [is_won], [is_game_over];
    - [src/game/wordle.py]: [WordleGame._get_feedback] (the second,
      position-preserving feedback routine);
    - [src/bot/wordle_bot.py]: [_get_feedback], [_filter_words],
      [_matches_feedback], [_calculate_entropy],
      [_calculate_expected_remaining], [_choose_optimal_guess],
      [solve_with_game].

    Python words are [string]s; [list(word)] is [list_ascii_of_string];
    a list slot overwritten with [None] is an [option ascii].  A Python
    exception (an [IndexError] on an out-of-range index) is the [None] of an
    [option] result.  Python sets are lists in iteration order.
    Python floats are modelled by exact rationals [Q] (and [R] for the
    logarithm of the entropy). *)

From Stdlib Require Import List Permutation Bool Arith Lia String Ascii QArith DecimalString.
Import ListNotations.
Open Scope string_scope.

(* ------------------------------------------------------------------ *)
(** ** Letters and strings *)

Definition letter := ascii.

(** [a in l] for a list of optional letters ([None] never equals a letter). *)
Fixpoint mem_opt (a : letter) (l : list (option letter)) : bool :=
  match l with
  | [] => false
  | Some b :: l' => Ascii.eqb a b || mem_opt a l'
  | None :: l' => mem_opt a l'
  end.

(** [l[l.index(a)] = None]: the first slot holding [a] is cleared. *)
Fixpoint clear_first (a : letter) (l : list (option letter)) : list (option letter) :=
  match l with
  | [] => []
  | Some b :: l' => if Ascii.eqb a b then None :: l' else Some b :: clear_first a l'
  | None :: l' => None :: clear_first a l'
  end.

(** Python's [str.upper] on ASCII letters. *)
Definition upper_char (c : ascii) : ascii :=
  let n := nat_of_ascii c in
  if (97 <=? n)%nat && (n <=? 122)%nat then ascii_of_nat (n - 32)%nat else c.

Fixpoint upper (s : string) : string :=
  match s with
  | EmptyString => EmptyString
  | String c s' => String (upper_char c) (upper s')
  end.

(* ------------------------------------------------------------------ *)
(** ** [Color] and feedback rows *)

Inductive Color := GREEN | YELLOW | GRAY.

Definition Color_eqb (c d : Color) : bool :=
  match c, d with
  | GREEN, GREEN | YELLOW, YELLOW | GRAY, GRAY => true
  | _, _ => false
  end.

Definition Feedback := list (letter * Color).

Fixpoint feedback_eqb (f1 f2 : Feedback) : bool :=
  match f1, f2 with
  | [], [] => true
  | (a, c) :: f1', (b, d) :: f2' => Ascii.eqb a b && Color_eqb c d && feedback_eqb f1' f2'
  | _, _ => false
  end.

(* ------------------------------------------------------------------ *)
(** ** [src/game/wordle_game.py]: [WordleGame._get_feedback]

    The first loop walks the positions of [guess_list] in ascending order;
    at position [i] it reads [target_list[i]] (an [IndexError] when the
    target is shorter) and, on equality, appends [(letter, GREEN)] and
    clears both slots.  It only touches slot [i], so it is written as a
    recursion over the two lists side by side; positions of the target
    beyond the guess are left as they are. *)
Module wordle_game.

Fixpoint green_pass (gl tl : list letter)
  : option (Feedback * list (option letter) * list (option letter)) :=
  match gl, tl with
  | [], _ => Some ([], map Some tl, [])
  | _ :: _, [] => None
  | g :: gl', t :: tl' =>
      match green_pass gl' tl' with
      | None => None
      | Some (fb, tl'', gl'') =>
          if Ascii.eqb g t
          then Some ((g, GREEN) :: fb, None :: tl'', None :: gl'')
          else Some (fb, Some t :: tl'', Some g :: gl'')
      end
  end.

(** The second loop: every guess slot not cleared by the first loop appends
    [YELLOW] (and clears the first matching target slot) or [GRAY]. *)
Fixpoint yellow_pass (gl tl : list (option letter)) : Feedback :=
  match gl with
  | [] => []
  | None :: gl' => yellow_pass gl' tl
  | Some g :: gl' =>
      if mem_opt g tl
      then (g, YELLOW) :: yellow_pass gl' (clear_first g tl)
      else (g, GRAY) :: yellow_pass gl' tl
  end.

(** [self._get_feedback(guess)] with [self.target = target]. *)
Definition get_feedback (target guess : string) : option Feedback :=
  match green_pass (list_ascii_of_string guess) (list_ascii_of_string target) with
  | None => None
  | Some (fb, target_list, guess_list) => Some (app fb (yellow_pass guess_list target_list))
  end.

End wordle_game.

(* ------------------------------------------------------------------ *)
(** ** [src/game/wordle.py]: [WordleGame._get_feedback]

    The first loop appends [(g, GREEN)] or the placeholder [(g, None)] at
    every position; the second loop overwrites [feedback[i]] in place for
    every slot the first loop did not clear. *)
Module wordle.

Definition Row := list (letter * option Color).

Fixpoint green_pass (gl tl : list letter)
  : option (Row * list (option letter) * list (option letter)) :=
  match gl, tl with
  | [], _ => Some ([], map Some tl, [])
  | _ :: _, [] => None
  | g :: gl', t :: tl' =>
      match green_pass gl' tl' with
      | None => None
      | Some (fb, tl'', gl'') =>
          if Ascii.eqb g t
          then Some ((g, Some GREEN) :: fb, None :: tl'', None :: gl'')
          else Some ((g, None) :: fb, Some t :: tl'', Some g :: gl'')
      end
  end.

(** [for i in range(len(guess_list))]: walks the guess slots and the
    feedback entries at the same index. *)
Fixpoint yellow_pass (gl : list (option letter)) (fb : Row) (tl : list (option letter)) : Row :=
  match gl, fb with
  | [], _ => fb
  | _, [] => []
  | None :: gl', e :: fb' => e :: yellow_pass gl' fb' tl
  | Some g :: gl', _ :: fb' =>
      if mem_opt g tl
      then (g, Some YELLOW) :: yellow_pass gl' fb' (clear_first g tl)
      else (g, Some GRAY) :: yellow_pass gl' fb' tl
  end.

Definition get_feedback (target guess : string) : option Row :=
  match green_pass (list_ascii_of_string guess) (list_ascii_of_string target) with
  | None => None
  | Some (fb, target_list, guess_list) => Some (yellow_pass guess_list fb target_list)
  end.

End wordle.

(* ------------------------------------------------------------------ *)
(** ** [src/bot/wordle_bot.py] *)
Module wordle_bot.

(** [WordleBot._get_feedback(guess, target)]: the shared game helper's
    [target] is set to [target.upper()], [_get_feedback(guess.upper())] is
    called and the old target restored; the helper's state is unchanged
    afterwards, so the call is the pure [wordle_game.get_feedback]. *)
Definition get_feedback (guess target : string) : option Feedback :=
  wordle_game.get_feedback (upper target) (upper guess).

(** Outcome of one loop of [_matches_feedback]: an exception, an early
    [return], or the loop finished with the current [word_list]. *)
Inductive Outcome (A : Type) := Exc | Return (b : bool) | Next (a : A).
Arguments Exc {A}.
Arguments Return {A} b.
Arguments Next {A} a.

(** [l[i] = x]; only called on an index just read successfully. *)
Fixpoint set_nth {A} (l : list A) (i : nat) (x : A) : list A :=
  match l, i with
  | [], _ => []
  | _ :: l', O => x :: l'
  | y :: l', S i' => y :: set_nth l' i' x
  end.

Definition opt_letter_eqb (o : option letter) (g : letter) : bool :=
  match o with Some w => Ascii.eqb w g | None => false end.

(** First loop: green positions. *)
Fixpoint green_loop (i : nat) (fb : Feedback) (guess_list : list letter)
    (word_list : list (option letter)) : Outcome (list (option letter)) :=
  match fb with
  | [] => Next word_list
  | (_, GREEN) :: fb' =>
      match nth_error word_list i, nth_error guess_list i with
      | Some w, Some g =>
          if negb (opt_letter_eqb w g) then Return false
          else green_loop (S i) fb' guess_list (set_nth word_list i None)
      | _, _ => Exc
      end
  | _ :: fb' => green_loop (S i) fb' guess_list word_list
  end.

(** Second loop: yellow positions. *)
Fixpoint yellow_loop (i : nat) (fb : Feedback) (guess_list : list letter)
    (word_list : list (option letter)) : Outcome (list (option letter)) :=
  match fb with
  | [] => Next word_list
  | (_, YELLOW) :: fb' =>
      match nth_error guess_list i with
      | None => Exc
      | Some g =>
          if negb (mem_opt g word_list) then Return false
          else match nth_error word_list i with
               | None => Exc
               | Some w =>
                   if opt_letter_eqb w g then Return false
                   else yellow_loop (S i) fb' guess_list (clear_first g word_list)
               end
      end
  | _ :: fb' => yellow_loop (S i) fb' guess_list word_list
  end.

(** Third loop: gray positions. *)
Fixpoint gray_loop (i : nat) (fb : Feedback) (guess_list : list letter)
    (word_list : list (option letter)) : Outcome unit :=
  match fb with
  | [] => Next tt
  | (_, GRAY) :: fb' =>
      match nth_error guess_list i with
      | None => Exc
      | Some g =>
          if mem_opt g word_list then Return false
          else gray_loop (S i) fb' guess_list word_list
      end
  | _ :: fb' => gray_loop (S i) fb' guess_list word_list
  end.

(** [WordleBot._matches_feedback(word, guess, feedback)]; [None] is a
    raised exception. *)
Definition matches_feedback (word guess : string) (feedback : Feedback) : option bool :=
  let word_list := map Some (list_ascii_of_string word) in
  let guess_list := list_ascii_of_string guess in
  match green_loop 0 feedback guess_list word_list with
  | Exc => None
  | Return b => Some b
  | Next word_list =>
      match yellow_loop 0 feedback guess_list word_list with
      | Exc => None
      | Return b => Some b
      | Next word_list =>
          match gray_loop 0 feedback guess_list word_list with
          | Exc => None
          | Return b => Some b
          | Next _ => Some true
          end
      end
  end.

(** [set.add]: a member already present is not added again. *)
Definition set_add (w : string) (s : list string) : list string :=
  if existsb (String.eqb w) s then s else app s [w].

(** The loop of [WordleBot._filter_words], from the set built so far. *)
Fixpoint filter_loop (words : list string) (guess : string) (feedback : Feedback)
    (filtered : list string) : option (list string) :=
  match words with
  | [] => Some filtered
  | word :: words' =>
      match matches_feedback word guess feedback with
      | None => None
      | Some true => filter_loop words' guess feedback (set_add word filtered)
      | Some false => filter_loop words' guess feedback filtered
      end
  end.

(** [WordleBot._filter_words(words, guess, feedback)]: a fresh set. *)
Definition filter_words (words : list string) (guess : string) (feedback : Feedback)
  : option (list string) :=
  filter_loop words guess feedback [].

(** [feedback_counts[feedback] = feedback_counts.get(feedback, 0) + 1]: the
    dict keeps insertion order, an existing key is updated in place. *)
Fixpoint dict_incr (k : Feedback) (d : list (Feedback * nat)) : list (Feedback * nat) :=
  match d with
  | [] => [(k, 1%nat)]
  | (k', c) :: d' => if feedback_eqb k k' then (k', S c) :: d' else (k', c) :: dict_incr k d'
  end.

(** The grouping loop shared by [_calculate_entropy] and
    [_calculate_expected_remaining]. *)
Fixpoint count_loop (guess : string) (targets : list string) (d : list (Feedback * nat))
  : option (list (Feedback * nat)) :=
  match targets with
  | [] => Some d
  | target :: targets' =>
      match get_feedback guess target with
      | None => None
      | Some fb => count_loop guess targets' (dict_incr fb d)
      end
  end.

Definition feedback_counts (guess : string) (possible_words : list string)
  : option (list (Feedback * nat)) :=
  count_loop guess possible_words [].

Definition Q_of_nat (n : nat) : Q := inject_Z (Z.of_nat n).

(** [expected += probability * count] with [probability = count / total]. *)
Definition expected_step (total : nat) (acc : Q) (entry : Feedback * nat) : Q :=
  let probability := Q_of_nat (snd entry) / Q_of_nat total in
  acc + probability * Q_of_nat (snd entry).

(** [WordleBot._calculate_expected_remaining(guess, possible_words)]. *)
Definition calculate_expected_remaining (guess : string) (possible_words : list string)
  : option Q :=
  match possible_words with
  | [] => Some 0
  | _ =>
      match feedback_counts guess possible_words with
      | None => None
      | Some counts => Some (fold_left (expected_step (List.length possible_words)) counts 0)
      end
  end.

(** [seen = set(); [w for w in candidates if not (w in seen or seen.add(w))]]. *)
Fixpoint dedup_loop (seen : list string) (candidates : list string) : list string :=
  match candidates with
  | [] => []
  | w :: ws =>
      if existsb (String.eqb w) seen then dedup_loop seen ws
      else w :: dedup_loop (w :: seen) ws
  end.

(** The candidate pool of [_choose_optimal_guess]. *)
Definition candidates_of (possible_words valid_guesses : list string) : list string :=
  if (List.length possible_words <=? 2)%nat then possible_words
  else dedup_loop [] (app possible_words valid_guesses).

(** [score = expected_remaining + bonus], [bonus = 0 if guess in
    possible_words else 0.5]. *)
Definition score (possible_words : list string) (guess : string) : option Q :=
  match calculate_expected_remaining guess possible_words with
  | None => None
  | Some expected_remaining =>
      Some (expected_remaining +
            (if existsb (String.eqb guess) possible_words then 0 else 1 # 2))
  end.

(** [score < best_score], with [float("inf")] as [None]. *)
Definition lt_best (s : Q) (best_score : option Q) : bool :=
  match best_score with
  | None => true
  | Some b => negb (Qle_bool b s)
  end.

(** [for guess in candidates: ...]. *)
Fixpoint score_loop (possible_words : list string) (candidates : list string)
    (best_guess : option string) (best_score : option Q) : option (option string) :=
  match candidates with
  | [] => Some best_guess
  | guess :: cs =>
      match score possible_words guess with
      | None => None
      | Some s =>
          if lt_best s best_score
          then score_loop possible_words cs (Some guess) (Some s)
          else score_loop possible_words cs best_guess best_score
      end
  end.

(** [WordleBot._choose_optimal_guess(possible_words, valid_guesses)]
    ([show_spinner] only drives a display thread).  [None] is a raised
    exception; [best_guess or candidates[0]] falls back on the first
    candidate when [best_guess] is [None] or the empty string. *)
Definition choose_optimal_guess (possible_words valid_guesses : list string)
  : option string :=
  if (List.length possible_words =? 1)%nat then nth_error possible_words 0
  else
    let candidates := candidates_of possible_words valid_guesses in
    match score_loop possible_words candidates None None with
    | None => None
    | Some (Some w) => if String.eqb w "" then nth_error candidates 0 else Some w
    | Some None => nth_error candidates 0
    end.

End wordle_bot.

(* ------------------------------------------------------------------ *)
(** ** [WordleBot._calculate_entropy], over the reals

    [math.log2(p)] is [ln p / ln 2]. *)
From Stdlib Require Import ZArith Reals Lra.

Module wordle_bot_entropy.

Definition log2 (x : R) : R := (ln x / ln 2)%R.

(** [if probability > 0: entropy -= probability * math.log2(probability)]. *)
Definition entropy_step (total : nat) (acc : R) (entry : Feedback * nat) : R :=
  let probability := (INR (snd entry) / INR total)%R in
  if Rlt_dec 0 probability then (acc - probability * log2 probability)%R else acc.

Definition calculate_entropy (guess : string) (possible_words : list string) : option R :=
  match possible_words with
  | [] => Some 0%R
  | _ =>
      match wordle_bot.feedback_counts guess possible_words with
      | None => None
      | Some counts => Some (fold_left (entropy_step (List.length possible_words)) counts 0%R)
      end
  end.

End wordle_bot_entropy.

(* ------------------------------------------------------------------ *)
(** ** [src/game/wordle_game.py]: the game state and [make_guess]

    Python dicts are association lists in insertion order and sets are
    lists without repetition.  [lines_printed] is display state. *)
Module game_state.

Record Game := mkGame {
  target : string;
  valid_guesses : list string;
  attempts : nat;
  max_attempts : nat;
  guessed_letters : list (letter * Color);
  all_guesses : list Feedback;
  lines_printed : nat;
  won : bool;
  hard_mode : bool;
  required_green_positions : list (nat * letter);
  required_yellow_letters : list letter;
  yellow_positions : list (letter * list nat)
}.

(** Whitespace stripped by [str.strip()] among ASCII characters:
    [\t \n \v \f \r], the separators [\x1c]-[\x1f] and the space. *)
Definition is_space (c : ascii) : bool :=
  let n := nat_of_ascii c in
  ((9 <=? n)%nat && (n <=? 13)%nat) || ((28 <=? n)%nat && (n <=? 32)%nat).

Fixpoint lstrip (s : string) : string :=
  match s with
  | EmptyString => EmptyString
  | String c s' => if is_space c then lstrip s' else s
  end.

Definition strip (s : string) : string :=
  string_of_list_ascii (rev (list_ascii_of_string (lstrip
    (string_of_list_ascii (rev (list_ascii_of_string (lstrip s))))))).

(** [str.isalpha()] on ASCII: non-empty and only letters. *)
Definition is_alpha_char (c : ascii) : bool :=
  let n := nat_of_ascii c in
  ((65 <=? n)%nat && (n <=? 90)%nat) || ((97 <=? n)%nat && (n <=? 122)%nat).

Definition isalpha (s : string) : bool :=
  match s with
  | EmptyString => false
  | _ => forallb is_alpha_char (list_ascii_of_string s)
  end.

(** [c in s] for a one-character string [c]. *)
Definition char_in (c : letter) (s : string) : bool :=
  existsb (Ascii.eqb c) (list_ascii_of_string s).

Fixpoint assoc {K V} (eqb : K -> K -> bool) (k : K) (d : list (K * V)) : option V :=
  match d with
  | [] => None
  | (k', v) :: d' => if eqb k k' then Some v else assoc eqb k d'
  end.

(** [d[k] = v]: in place for an existing key, appended otherwise. *)
Fixpoint dict_set {K V} (eqb : K -> K -> bool) (k : K) (v : V) (d : list (K * V)) : list (K * V) :=
  match d with
  | [] => [(k, v)]
  | (k', v') :: d' => if eqb k k' then (k', v) :: d' else (k', v') :: dict_set eqb k v d'
  end.

Definition list_add {A} (eqb : A -> A -> bool) (x : A) (s : list A) : list A :=
  if existsb (eqb x) s then s else app s [x].

(** [WordleGame._is_valid_hard_mode(guess)]; [guess[position]] out of
    range raises ([None]). *)
Fixpoint check_greens (guess : string) (greens : list (nat * letter)) : option bool :=
  match greens with
  | [] => Some true
  | (position, required_letter) :: gs =>
      match String.get position guess with
      | None => None
      | Some c => if negb (Ascii.eqb c required_letter) then Some false else check_greens guess gs
      end
  end.

Fixpoint check_yellow_positions (guess : string) (required_letter : letter) (ps : list nat)
  : option bool :=
  match ps with
  | [] => Some true
  | position :: ps' =>
      match String.get position guess with
      | None => None
      | Some c => if Ascii.eqb c required_letter then Some false
                  else check_yellow_positions guess required_letter ps'
      end
  end.

Fixpoint check_yellows (self : Game) (guess : string) (ys : list letter) : option bool :=
  match ys with
  | [] => Some true
  | required_letter :: ys' =>
      if negb (char_in required_letter guess) then Some false
      else
        let r := match assoc Ascii.eqb required_letter (yellow_positions self) with
                 | Some ps => check_yellow_positions guess required_letter ps
                 | None => Some true
                 end in
        match r with
        | Some true => check_yellows self guess ys'
        | other => other
        end
  end.

Definition is_valid_hard_mode (self : Game) (guess : string) : option bool :=
  match check_greens guess (required_green_positions self) with
  | Some true => check_yellows self guess (required_yellow_letters self)
  | other => other
  end.

(** [WordleGame.is_valid_guess(guess)]. *)
Definition is_valid_guess (self : Game) (guess : string) : option bool :=
  if negb (String.length guess =? 5)%nat then Some false
  else if negb (isalpha guess) then Some false
  else if negb (existsb (String.eqb (upper guess)) (valid_guesses self)) then Some false
  else if hard_mode self then is_valid_hard_mode self (upper guess)
  else Some true.

(** One step of [_update_keyboard_state] at index [i]. *)
Definition update_one (self : Game) (i : nat) (entry : letter * Color) : Game :=
  let (letter0, color) := entry in
  let letter_upper := upper_char letter0 in
  let gl := if negb (existsb (fun p => Ascii.eqb letter_upper (fst p)) (guessed_letters self))
               || Color_eqb color GREEN
            then dict_set Ascii.eqb letter_upper color (guessed_letters self)
            else guessed_letters self in
  let '(rg, ry, yp) :=
    if hard_mode self then
      match color with
      | GREEN => (dict_set Nat.eqb i letter_upper (required_green_positions self),
                  required_yellow_letters self, yellow_positions self)
      | YELLOW =>
          let ps := match assoc Ascii.eqb letter_upper (yellow_positions self) with
                    | Some ps => ps | None => [] end in
          (required_green_positions self,
           list_add Ascii.eqb letter_upper (required_yellow_letters self),
           dict_set Ascii.eqb letter_upper (list_add Nat.eqb i ps) (yellow_positions self))
      | GRAY => (required_green_positions self, required_yellow_letters self, yellow_positions self)
      end
    else (required_green_positions self, required_yellow_letters self, yellow_positions self) in
  mkGame (target self) (valid_guesses self) (attempts self) (max_attempts self)
         gl (all_guesses self) (lines_printed self) (won self) (hard_mode self) rg ry yp.

Fixpoint update_loop (self : Game) (i : nat) (feedback : Feedback) : Game :=
  match feedback with
  | [] => self
  | e :: fb' => update_loop (update_one self i e) (S i) fb'
  end.

(** [WordleGame._update_keyboard_state(feedback)]. *)
Definition update_keyboard_state (self : Game) (feedback : Feedback) : Game :=
  update_loop self 0 feedback.

Definition append_guess (self : Game) (feedback : Feedback) : Game :=
  mkGame (target self) (valid_guesses self) (attempts self) (max_attempts self)
         (guessed_letters self) (app (all_guesses self) [feedback]) (lines_printed self)
         (won self) (hard_mode self) (required_green_positions self)
         (required_yellow_letters self) (yellow_positions self).

Definition set_won (self : Game) : Game :=
  mkGame (target self) (valid_guesses self) (attempts self) (max_attempts self)
         (guessed_letters self) (all_guesses self) (lines_printed self)
         true (hard_mode self) (required_green_positions self)
         (required_yellow_letters self) (yellow_positions self).

Definition incr_attempts (self : Game) : Game :=
  mkGame (target self) (valid_guesses self) (S (attempts self)) (max_attempts self)
         (guessed_letters self) (all_guesses self) (lines_printed self)
         (won self) (hard_mode self) (required_green_positions self)
         (required_yellow_letters self) (yellow_positions self).

(** [WordleGame.make_guess(guess)]: the returned boolean and the new
    state; [None] is a raised exception. *)
Definition make_guess (self : Game) (guess0 : string) : option (bool * Game) :=
  let guess := upper (strip guess0) in
  match is_valid_guess self guess with
  | None => None
  | Some false => Some (false, self)
  | Some true =>
      match wordle_game.get_feedback (target self) guess with
      | None => None
      | Some feedback =>
          let s1 := append_guess self feedback in
          let s2 := update_keyboard_state s1 feedback in
          let s3 := if String.eqb guess (target s2) then set_won s2 else s2 in
          Some (true, incr_attempts s3)
      end
  end.

Definition is_won (self : Game) : bool := won self.

Definition is_game_over (self : Game) : bool :=
  won self || (max_attempts self <=? attempts self)%nat.

(** A fresh game ([__init__]) with a given target and vocabulary. *)
Definition new_game (target0 : string) (valid : list string) (hard : bool) : Game :=
  mkGame target0 valid 0 6 [] [] 0 false hard [] [] [].

End game_state.

(* ------------------------------------------------------------------ *)
(** ** [WordleBot.solve_with_game(game)]

    [la_words] is the bot's answer vocabulary.  The loop is run with a
    fuel bound; every iteration that does not leave the loop raises
    [game.attempts] by one, so [max_attempts + 1] rounds of fuel always
    suffice.  The result is [len(guesses)] and the final game state. *)
Module solve_game.
Import game_state.

(** [l[-1]]; [None] on an empty list. *)
Definition last_opt {A} (l : list A) : option A :=
  match rev l with [] => None | x :: _ => Some x end.

Fixpoint solve_loop (fuel : nat) (game : Game) (possible_words valid_guesses : list string)
    (guesses : list string) : option (nat * Game) :=
  match fuel with
  | O => None
  | S fuel' =>
      if is_game_over game then Some (List.length guesses, game)
      else
        match wordle_bot.choose_optimal_guess possible_words valid_guesses with
        | None => None
        | Some guess =>
            let guesses := app guesses [guess] in
            match make_guess game guess with
            | None => None
            | Some (false, game) => Some (List.length guesses, game)
            | Some (true, game) =>
                match last_opt (all_guesses game) with
                | None => None
                | Some feedback =>
                    if is_won game then Some (List.length guesses, game)
                    else
                      match wordle_bot.filter_words possible_words guess feedback with
                      | None => None
                      | Some [] => Some (List.length guesses, game)
                      | Some possible_words' =>
                          solve_loop fuel' game possible_words' valid_guesses guesses
                      end
                end
            end
        end
  end.

Definition solve_with_game (la_words : list string) (game : Game) : option (nat * Game) :=
  solve_loop (S (max_attempts game)) game la_words (valid_guesses game) [].

End solve_game.

(* ------------------------------------------------------------------ *)
(** ** [WordleGame._get_hard_mode_error(guess)]

    The list [errors] is built in the order of the source; positions are
    printed one-based with [str(position + 1)]. *)
Module hard_mode_msg.
Import game_state.

Definition str_of_nat (n : nat) : string := NilEmpty.string_of_uint (Nat.to_uint n).

Definition char_str (c : letter) : string := String c EmptyString.

Definition green_msg (position : nat) (required_letter : letter) : string :=
  "Position " ++ str_of_nat (position + 1) ++ " must be '" ++ char_str required_letter
  ++ "' (green)".

Definition include_msg (required_letter : letter) : string :=
  "Must include '" ++ char_str required_letter ++ "' (yellow)".

Definition position_msg (required_letter : letter) (position : nat) : string :=
  "'" ++ char_str required_letter ++ "' cannot be in position " ++ str_of_nat (position + 1)
  ++ " (was yellow there)".

Fixpoint green_errors (guess : string) (greens : list (nat * letter)) : option (list string) :=
  match greens with
  | [] => Some []
  | (position, required_letter) :: gs =>
      match String.get position guess, green_errors guess gs with
      | Some c, Some errs =>
          Some (if negb (Ascii.eqb c required_letter)
                then green_msg position required_letter :: errs else errs)
      | _, _ => None
      end
  end.

Fixpoint position_errors (guess : string) (required_letter : letter) (ps : list nat)
  : option (list string) :=
  match ps with
  | [] => Some []
  | position :: ps' =>
      match String.get position guess, position_errors guess required_letter ps' with
      | Some c, Some errs =>
          Some (if Ascii.eqb c required_letter
                then position_msg required_letter position :: errs else errs)
      | _, _ => None
      end
  end.

Fixpoint yellow_errors (self : Game) (guess : string) (ys : list letter) : option (list string) :=
  match ys with
  | [] => Some []
  | required_letter :: ys' =>
      let here :=
        if negb (char_in required_letter guess) then Some [include_msg required_letter]
        else match assoc Ascii.eqb required_letter (yellow_positions self) with
             | Some ps => position_errors guess required_letter ps
             | None => Some []
             end in
      match here, yellow_errors self guess ys' with
      | Some e1, Some e2 => Some (app e1 e2)
      | _, _ => None
      end
  end.

Fixpoint join (sep : string) (xs : list string) : string :=
  match xs with
  | [] => ""
  | [x] => x
  | x :: xs' => x ++ sep ++ join sep xs'
  end.

Definition get_hard_mode_error (self : Game) (guess : string) : option string :=
  match green_errors guess (required_green_positions self),
        yellow_errors self guess (required_yellow_letters self) with
  | Some e1, Some e2 =>
      let errors := app e1 e2 in
      match errors with
      | [] => Some ""
      | _ => Some ("Hard mode violation: " ++ join "; " errors)
      end
  | _, _ => None
  end.

End hard_mode_msg.

(* ------------------------------------------------------------------ *)
(** ** G/Y/X feedback codes of [src/bot/wordle_bot.py]

    [solve_from_state] and [solve_interactive] accept a code when it has 5
    characters, all among G, Y, X once upper-cased, and turn it into a
    feedback row letter by letter; [solve_with_game] prints a row back as
    such a code. *)
Module feedback_code.

Definition is_code_char (c : ascii) : bool :=
  Ascii.eqb c "G"%char || Ascii.eqb c "Y"%char || Ascii.eqb c "X"%char.

(** [len(feedback_str) == 5 and all(c in "GYX" for c in feedback_str.upper())]. *)
Definition valid_code (s : string) : bool :=
  (String.length s =? 5)%nat && forallb is_code_char (list_ascii_of_string (upper s)).

Definition color_of_char (c : ascii) : Color :=
  if Ascii.eqb c "G"%char then GREEN
  else if Ascii.eqb c "Y"%char then YELLOW
  else GRAY.

(** [for i, char in enumerate(code): feedback.append((guess[i], color))];
    [guess[i]] out of range raises. *)
Fixpoint parse_loop (guess code : list ascii) : option Feedback :=
  match code, guess with
  | [], _ => Some []
  | _ :: _, [] => None
  | c :: code', g :: guess' =>
      match parse_loop guess' code' with
      | None => None
      | Some fb => Some ((g, color_of_char c) :: fb)
      end
  end.

Definition parse_feedback (guess code : string) : option Feedback :=
  parse_loop (list_ascii_of_string guess) (list_ascii_of_string (upper code)).

Definition char_of_color (c : Color) : ascii :=
  match c with GREEN => "G"%char | YELLOW => "Y"%char | GRAY => "X"%char end.

(** [''.join('G' if c == GREEN else 'Y' if c == YELLOW else 'X' for _, c in feedback)]. *)
Definition render_feedback (fb : Feedback) : string :=
  string_of_list_ascii (map (fun e => char_of_color (snd e)) fb).

End feedback_code.

(* ------------------------------------------------------------------ *)
(** ** Observations used to state the properties *)
Module obs.

(** Occurrences of a letter in a word, and in a list with cleared slots. *)
Fixpoint count_letter (l : letter) (xs : list letter) : nat :=
  match xs with
  | [] => 0
  | x :: xs' => (if Ascii.eqb x l then 1 else 0) + count_letter l xs'
  end.

Fixpoint count_slot (l : letter) (xs : list (option letter)) : nat :=
  match xs with
  | [] => 0
  | Some x :: xs' => (if Ascii.eqb x l then 1 else 0) + count_slot l xs'
  | None :: xs' => count_slot l xs'
  end.

(** Number of feedback entries for letter [l] marked GREEN or YELLOW. *)
Fixpoint credited (l : letter) (fb : Feedback) : nat :=
  match fb with
  | [] => 0
  | (a, c) :: fb' =>
      (if Ascii.eqb a l && negb (Color_eqb c GRAY) then 1 else 0) + credited l fb'
  end.

Definition is_green (e : letter * Color) : bool := Color_eqb (snd e) GREEN.

(** The guess letters at positions where guess and target agree, in
    ascending position order. *)
Fixpoint exact_letters (gl tl : list letter) : list letter :=
  match gl, tl with
  | g :: gl', t :: tl' => if Ascii.eqb g t then g :: exact_letters gl' tl' else exact_letters gl' tl'
  | _, _ => []
  end.

(** A [wordle_game] feedback row read as a [wordle] row. *)
Definition as_row (fb : Feedback) : wordle.Row := map (fun e => (fst e, Some (snd e))) fb.

(** Number of targets of [S] whose feedback against [g] is [k]: the size of
    the bucket of [k]. *)
Definition bucket_size (g : string) (S : list string) (k : Feedback) : nat :=
  List.length (filter (fun t => match wordle_bot.get_feedback g t with
                                | Some f => feedback_eqb f k
                                | None => false
                                end) S).

Fixpoint sumQ (xs : list Q) : Q :=
  match xs with [] => 0 | x :: xs' => x + sumQ xs' end.

(** Successive [possible_words = self._filter_words(possible_words, guess,
    feedback)] updates of the solving loops, one per round. *)
Fixpoint filter_rounds (S : list string) (rounds : list (string * Feedback))
  : option (list string) :=
  match rounds with
  | [] => Some S
  | (g, f) :: rs =>
      match wordle_bot.filter_words S g f with
      | None => None
      | Some S' => filter_rounds S' rs
      end
  end.

(** The letters still held by a list with cleared slots. *)
Fixpoint somes (xs : list (option letter)) : list letter :=
  match xs with
  | [] => []
  | Some x :: xs' => x :: somes xs'
  | None :: xs' => somes xs'
  end.

(** Sum of the counts stored under key [k] in a [feedback_counts] dict. *)
Fixpoint dict_total (d : list (Feedback * nat)) (k : Feedback) : nat :=
  match d with
  | [] => 0
  | (k', c) :: d' => (if feedback_eqb k' k then c else 0) + dict_total d' k
  end.

(** How the first loops of the two engines line up: [wordle_game] keeps
    only the GREEN entries [fb], [wordle] keeps one entry per position
    ([row]), a placeholder where the guess slot [gl] is still set. *)
Inductive green_shape : Feedback -> list (option letter) -> wordle.Row -> Prop :=
  | shape_nil : green_shape [] [] []
  | shape_green g fb gl row :
      green_shape fb gl row -> green_shape ((g, GREEN) :: fb) (None :: gl) ((g, Some GREEN) :: row)
  | shape_open g fb gl row :
      green_shape fb gl row -> green_shape fb (Some g :: gl) ((g, None) :: row).

(** Position by position, the result of the first loop of [wordle]'s
    [_get_feedback] on guess letters [G] and target letters [T]: the row so
    far, the target slots and the guess slots. *)
Inductive wshape : list letter -> list letter -> wordle.Row ->
                   list (option letter) -> list (option letter) -> Prop :=
  | wshape_nil : wshape [] [] [] [] []
  | wshape_green g G T row tl gl :
      wshape G T row tl gl ->
      wshape (g :: G) (g :: T) ((g, Some GREEN) :: row) (None :: tl) (None :: gl)
  | wshape_open g t G T row tl gl :
      g <> t -> wshape G T row tl gl ->
      wshape (g :: G) (t :: T) ((g, None) :: row) (Some t :: tl) (Some g :: gl).

End obs.

(* ================================================================== *)
(** * Properties *)

(** ** Basic facts *)

Lemma color_eqb_eq (c d : Color) : Color_eqb c d = true <-> c = d.
Proof. destruct c, d; simpl; split; congruence. Qed.

Lemma feedback_eqb_eq (f1 f2 : Feedback) : feedback_eqb f1 f2 = true <-> f1 = f2.
Proof.
  revert f2; induction f1 as [|[a c] f1 IH]; intros [|[b d] f2]; simpl;
    try (split; congruence).
  rewrite !andb_true_iff, Ascii.eqb_eq, color_eqb_eq, IH.
  split; [intros [[-> ->] ->]; reflexivity | intros H; inversion H; auto].
Qed.

Lemma length_list_ascii (s : string) :
  List.length (list_ascii_of_string s) = String.length s.
Proof. induction s; simpl; congruence. Qed.

Lemma length_upper (s : string) : String.length (upper s) = String.length s.
Proof. induction s; simpl; congruence. Qed.

(** The first loop of [wordle_game._get_feedback] raises only when the
    target is shorter than the guess. *)
Lemma green_pass_defined (gl tl : list letter) :
  (List.length gl <= List.length tl)%nat ->
  exists fb tl' gl', wordle_game.green_pass gl tl = Some (fb, tl', gl').
Proof.
  revert tl; induction gl as [|g gl IH]; intros [|t tl] H; simpl in *; try lia.
  - eauto.
  - eauto.
  - destruct (IH tl ltac:(lia)) as (fb & tl' & gl' & ->).
    destruct (Ascii.eqb g t); eauto.
Qed.

Lemma get_feedback_defined (target guess : string) :
  (String.length guess <= String.length target)%nat ->
  exists fb, wordle_game.get_feedback target guess = Some fb.
Proof.
  intros H. unfold wordle_game.get_feedback.
  destruct (green_pass_defined (list_ascii_of_string guess) (list_ascii_of_string target))
    as (fb & tl' & gl' & ->).
  { rewrite !length_list_ascii; exact H. }
  eauto.
Qed.

Lemma bot_get_feedback_defined (guess target : string) :
  (String.length guess <= String.length target)%nat ->
  exists fb, wordle_bot.get_feedback guess target = Some fb.
Proof.
  intros H. apply get_feedback_defined. rewrite !length_upper; exact H.
Qed.

(** ** Letter counting through the two passes *)

Lemma count_slot_map_some (l : letter) (xs : list letter) :
  obs.count_slot l (map Some xs) = obs.count_letter l xs.
Proof. induction xs; simpl; congruence. Qed.

Lemma credited_app (l : letter) (f1 f2 : Feedback) :
  obs.credited l (app f1 f2) = (obs.credited l f1 + obs.credited l f2)%nat.
Proof. induction f1 as [|[a c] f1 IH]; simpl; [reflexivity | rewrite IH; lia]. Qed.

Lemma green_pass_count (l : letter) (gl tl : list letter) fb tl' gl' :
  wordle_game.green_pass gl tl = Some (fb, tl', gl') ->
  (obs.credited l fb + obs.count_slot l tl')%nat = obs.count_letter l tl.
Proof.
  revert tl fb tl' gl'; induction gl as [|g gl IH]; intros [|t tl] fb tl' gl' H;
    simpl in H; try discriminate.
  1, 2: inversion H; subst; simpl; rewrite ?count_slot_map_some; reflexivity.
  destruct (wordle_game.green_pass gl tl) as [[[fb0 tl0] gl0]|] eqn:E; [|discriminate].
    specialize (IH tl fb0 tl0 gl0 E).
    destruct (Ascii.eqb g t) eqn:Egt; inversion H; subst; simpl.
    + apply Ascii.eqb_eq in Egt; subst.
      destruct (Ascii.eqb t l); simpl; lia.
    + lia.
Qed.

Lemma clear_first_count (g l : letter) (tl : list (option letter)) :
  mem_opt g tl = true ->
  ((if Ascii.eqb g l then 1 else 0) + obs.count_slot l (clear_first g tl))%nat
  = obs.count_slot l tl.
Proof.
  induction tl as [|[b|] tl IH]; simpl; intros H; try discriminate.
  - destruct (Ascii.eqb g b) eqn:Egb; simpl.
    + apply Ascii.eqb_eq in Egb; subst. destruct (Ascii.eqb b l); reflexivity.
    + simpl in H. specialize (IH H). simpl. lia.
  - apply IH; exact H.
Qed.

Lemma yellow_pass_bound (l : letter) (gl tl : list (option letter)) :
  (obs.credited l (wordle_game.yellow_pass gl tl) <= obs.count_slot l tl)%nat.
Proof.
  revert tl; induction gl as [|[g|] gl IH]; intros tl; simpl.
  - lia.
  - destruct (mem_opt g tl) eqn:Em; simpl.
    + pose proof (clear_first_count g l tl Em) as Hc.
      specialize (IH (clear_first g tl)).
      destruct (Ascii.eqb g l); simpl in *; lia.
    + rewrite andb_false_r. simpl. apply IH.
  - apply IH.
Qed.

(** ** Shape of a feedback row *)

Lemma green_pass_shape (gl tl : list letter) fb tl' gl' :
  wordle_game.green_pass gl tl = Some (fb, tl', gl') ->
  fb = map (fun a => (a, GREEN)) (obs.exact_letters gl tl) /\
  Permutation (app (map fst fb) (obs.somes gl')) gl.
Proof.
  revert tl fb tl' gl'; induction gl as [|g gl IH]; intros [|t tl] fb tl' gl' H;
    simpl in H; try discriminate.
  1, 2: inversion H; subst; simpl; split; reflexivity.
  destruct (wordle_game.green_pass gl tl) as [[[fb0 tl0] gl0]|] eqn:E; [|discriminate].
  destruct (IH tl fb0 tl0 gl0 E) as [Hfb Hp].
  simpl. destruct (Ascii.eqb g t) eqn:Egt; inversion H; subst; simpl.
  - split; [reflexivity|]. constructor. exact Hp.
  - split; [reflexivity|].
    eapply perm_trans; [apply Permutation_sym, Permutation_middle|]. constructor. exact Hp.
Qed.

Lemma yellow_pass_shape (gl tl : list (option letter)) :
  map fst (wordle_game.yellow_pass gl tl) = obs.somes gl /\
  filter obs.is_green (wordle_game.yellow_pass gl tl) = [].
Proof.
  revert tl; induction gl as [|[g|] gl IH]; intros tl; simpl.
  - split; reflexivity.
  - destruct (mem_opt g tl); simpl;
      [destruct (IH (clear_first g tl)) as [H1 H2] | destruct (IH tl) as [H1 H2]];
      rewrite H1, H2; split; reflexivity.
  - apply IH.
Qed.

Lemma filter_green_all (xs : list letter) :
  filter obs.is_green (map (fun a => (a, GREEN)) xs) = map (fun a => (a, GREEN)) xs.
Proof. induction xs; simpl; congruence. Qed.

(* ================================================================== *)
(** ** Claims about the feedback engine and the consistency filter *)

(** C1 (refuted at a concrete input): the word that produced the feedback
    is filtered out by it.  The bot's engine ([wordle_game._get_feedback])
    lists GREEN entries first, while [_matches_feedback] reads the entry at
    index [i] as the colour of guess position [i]: for guess CRANE and the
    single candidate SLATE, [_filter_words] returns the empty set. *)
Lemma C1_filter_drops_own_target :
  exists fb, wordle_bot.get_feedback "CRANE" "SLATE" = Some fb /\
             wordle_bot.filter_words ["SLATE"] "CRANE" fb = Some [].
Proof. eexists; split; vm_compute; reflexivity. Qed.

(** With the position-ordered row of [wordle.py] the same candidate is
    kept: the loss comes from the order of the bot's engine. *)
Lemma filter_keeps_with_positional_row :
  exists row, wordle.get_feedback "SLATE" "CRANE" = Some row /\
    wordle_bot.filter_words ["SLATE"] "CRANE"
      (map (fun e => (fst e, match snd e with Some c => c | None => GRAY end)) row)
    = Some ["SLATE"].
Proof. eexists; split; vm_compute; reflexivity. Qed.

(** C2 (refuted at a concrete input): the row claimed for CRANE against
    SLATE, [C:Absent, R:Absent, A:Present, N:Absent, E:Exact], is produced
    neither by the bot's engine ([A:G, E:G, C:X, R:X, N:X]) nor by the
    position-ordered engine of [wordle.py] ([C:X, R:X, A:G, N:X, E:G]):
    A sits at index 2 of both words. *)
Lemma C2_crane_slate_row :
  wordle_game.get_feedback "SLATE" "CRANE"
    <> Some [("C"%char, GRAY); ("R"%char, GRAY); ("A"%char, YELLOW);
             ("N"%char, GRAY); ("E"%char, GREEN)] /\
  wordle.get_feedback "SLATE" "CRANE"
    <> Some (obs.as_row [("C"%char, GRAY); ("R"%char, GRAY); ("A"%char, YELLOW);
                         ("N"%char, GRAY); ("E"%char, GREEN)]) /\
  wordle_game.get_feedback "SLATE" "CRANE"
    = Some [("A"%char, GREEN); ("E"%char, GREEN); ("C"%char, GRAY);
            ("R"%char, GRAY); ("N"%char, GRAY)].
Proof. vm_compute; repeat split; congruence. Qed.

(** C2 (as amended): for a guess and a target of equal length the engine
    returns one entry per guess letter (a permutation of the guess); its
    GREEN entries are exactly the guess letters at the positions where
    guess and target agree, in ascending position order; every other
    entry is YELLOW or GRAY.  For CRANE against SLATE the entries are
    C:Absent, R:Absent, A:Exact, N:Absent, E:Exact. *)
Theorem C2_feedback_exact_positions (target guess : string) :
  String.length guess = String.length target ->
  (exists fb,
     wordle_game.get_feedback target guess = Some fb /\
     Permutation (map fst fb) (list_ascii_of_string guess) /\
     filter obs.is_green fb
       = map (fun a => (a, GREEN))
             (obs.exact_letters (list_ascii_of_string guess) (list_ascii_of_string target))) /\
  (exists fb,
     wordle_game.get_feedback "SLATE" "CRANE" = Some fb /\
     Permutation fb [("C"%char, GRAY); ("R"%char, GRAY); ("A"%char, GREEN);
                     ("N"%char, GRAY); ("E"%char, GREEN)]).
Proof.
  intros Hlen. split.
  - unfold wordle_game.get_feedback.
    destruct (green_pass_defined (list_ascii_of_string guess) (list_ascii_of_string target))
      as (fb & tl' & gl' & E).
    { rewrite !length_list_ascii; lia. }
    rewrite E. destruct (green_pass_shape _ _ _ _ _ E) as [Hfb Hp].
    destruct (yellow_pass_shape gl' tl') as [H1 H2].
    eexists; split; [reflexivity|]. split.
    + rewrite map_app, H1. exact Hp.
    + rewrite filter_app, H2, app_nil_r, Hfb. apply filter_green_all.
  - eexists; split; [vm_compute; reflexivity|].
    set (c := ("C"%char, GRAY)); set (r := ("R"%char, GRAY)); set (a := ("A"%char, GREEN));
      set (n := ("N"%char, GRAY)); set (e := ("E"%char, GREEN)).
    change [c; r; a; n; e] with (app [c; r] (a :: [n; e])).
    apply Permutation_cons_app.
    change (app [c; r] [n; e]) with (app [c; r; n] (e :: [])).
    apply Permutation_cons_app. reflexivity.
Qed.

Lemma C2_feedback_exact_positions_witness :
  String.length "CRANE" = String.length "SLATE" /\
  (exists fb,
     wordle_game.get_feedback "SLATE" "CRANE" = Some fb /\
     Permutation (map fst fb) (list_ascii_of_string "CRANE") /\
     filter obs.is_green fb
       = map (fun a => (a, GREEN))
             (obs.exact_letters (list_ascii_of_string "CRANE") (list_ascii_of_string "SLATE"))).
Proof.
  split; [reflexivity|].
  apply (proj1 (C2_feedback_exact_positions "SLATE" "CRANE" eq_refl)).
Defined.

(** C3 (refuted at concrete inputs): [_filter_words] is not the test
    "the engine's feedback of the candidate equals the observed row".
    (a) SLATE's own feedback for CRANE does not keep SLATE;
    (b) for guess ABCAE the row observed on target FAGHI keeps FGHAI,
    although FGHAI's feedback differs (its A at index 3 is GREEN). *)
Lemma C3_filter_not_feedback_equality :
  (exists fb, wordle_bot.get_feedback "CRANE" "SLATE" = Some fb /\
              wordle_bot.matches_feedback "SLATE" "CRANE" fb = Some false) /\
  (exists f f', wordle_bot.get_feedback "ABCAE" "FAGHI" = Some f /\
                wordle_bot.get_feedback "ABCAE" "FGHAI" = Some f' /\
                f' <> f /\
                wordle_bot.filter_words ["FGHAI"] "ABCAE" f = Some ["FGHAI"]).
Proof.
  split.
  - eexists; split; vm_compute; reflexivity.
  - do 2 eexists; split; [vm_compute; reflexivity|]; split; [vm_compute; reflexivity|].
    split; [discriminate | vm_compute; reflexivity].
Qed.

(** C7: for a guess and a target of equal length, the number of GREEN or
    YELLOW entries for any letter is at most its number of occurrences in
    the target. *)
Theorem C7_credit_bounded_by_target (target guess : string) :
  String.length guess = String.length target ->
  exists fb, wordle_game.get_feedback target guess = Some fb /\
    forall l : letter,
      (obs.credited l fb <= obs.count_letter l (list_ascii_of_string target))%nat.
Proof.
  intros Hlen. unfold wordle_game.get_feedback.
  destruct (green_pass_defined (list_ascii_of_string guess) (list_ascii_of_string target))
    as (fb & tl' & gl' & E).
  { rewrite !length_list_ascii; lia. }
  rewrite E. eexists; split; [reflexivity|]. intros l.
  rewrite credited_app, <- (green_pass_count l _ _ _ _ _ E).
  pose proof (yellow_pass_bound l gl' tl'). lia.
Qed.

Lemma C7_credit_bounded_by_target_witness :
  String.length "SPEED" = String.length "ERASE" /\
  exists fb, wordle_game.get_feedback "ERASE" "SPEED" = Some fb /\
    forall l : letter,
      (obs.credited l fb <= obs.count_letter l (list_ascii_of_string "ERASE"))%nat.
Proof.
  split; [reflexivity|]. apply (C7_credit_bounded_by_target "ERASE" "SPEED"). reflexivity.
Defined.

(** C9 (refuted at a concrete input): the two feedback routines return
    different rows for CRANE against SLATE. *)
Lemma C9_engines_disagree :
  exists f r, wordle_game.get_feedback "SLATE" "CRANE" = Some f /\
              wordle.get_feedback "SLATE" "CRANE" = Some r /\
              obs.as_row f <> r.
Proof.
  do 2 eexists; split; [vm_compute; reflexivity|]; split; [vm_compute; reflexivity|].
  vm_compute. congruence.
Qed.

(** ** The filter only removes words *)

Lemma set_add_in (x w : string) (s : list string) :
  In w (wordle_bot.set_add x s) -> In w s \/ w = x.
Proof.
  unfold wordle_bot.set_add. destruct (existsb (String.eqb x) s); [auto|].
  rewrite in_app_iff. simpl. intuition.
Qed.

Lemma set_add_length (x : string) (s : list string) :
  (List.length (wordle_bot.set_add x s) <= S (List.length s))%nat.
Proof.
  unfold wordle_bot.set_add. destruct (existsb (String.eqb x) s); [lia|].
  rewrite length_app. simpl. lia.
Qed.

Lemma filter_loop_subset (ws : list string) (g : string) (f : Feedback) (acc r : list string) :
  wordle_bot.filter_loop ws g f acc = Some r ->
  (forall w, In w r -> In w acc \/ In w ws) /\
  (List.length r <= List.length acc + List.length ws)%nat.
Proof.
  revert acc; induction ws as [|x ws IH]; intros acc H; simpl in H.
  - inversion H; subst. split; [auto | simpl; lia].
  - destruct (wordle_bot.matches_feedback x g f) as [[|]|]; [| |discriminate].
    + destruct (IH _ H) as [Hin Hlen]. split.
      * intros w Hw. destruct (Hin w Hw) as [Ha|Ha]; [|simpl; auto].
        destruct (set_add_in x w acc Ha); subst; simpl; auto.
      * pose proof (set_add_length x acc). simpl. lia.
    + destruct (IH _ H) as [Hin Hlen]. split.
      * intros w Hw. destruct (Hin w Hw); simpl; auto.
      * simpl. lia.
Qed.

Lemma filter_words_subset (S : list string) (g : string) (f : Feedback) (S' : list string) :
  wordle_bot.filter_words S g f = Some S' ->
  (forall w, In w S' -> In w S) /\ (List.length S' <= List.length S)%nat.
Proof.
  intros H. destruct (filter_loop_subset S g f [] S' H) as [Hin Hlen]. split.
  - intros w Hw. destruct (Hin w Hw) as [[]|]; auto.
  - simpl in Hlen. exact Hlen.
Qed.

(** C6: [_filter_words] returns a set whose members all come from its
    input (so it is no larger), and across any sequence of rounds the
    candidate set only shrinks or stays equal.  (The model is pure: the
    input list is a value and is not changed by the call.) *)
Theorem C6_filter_shrinks :
  (forall S g f S', wordle_bot.filter_words S g f = Some S' ->
     (forall w, In w S' -> In w S) /\ (List.length S' <= List.length S)%nat) /\
  (forall S rounds S', obs.filter_rounds S rounds = Some S' ->
     (forall w, In w S' -> In w S) /\ (List.length S' <= List.length S)%nat).
Proof.
  split; [exact filter_words_subset|].
  intros S rounds; revert S; induction rounds as [|[g f] rs IH]; intros S S' H; simpl in H.
  - inversion H; subst. split; auto.
  - destruct (wordle_bot.filter_words S g f) as [S1|] eqn:E; [|discriminate].
    destruct (filter_words_subset S g f S1 E) as [H1 L1].
    destruct (IH S1 S' H) as [H2 L2]. split; [auto | lia].
Qed.

Lemma C6_filter_shrinks_witness :
  wordle_bot.filter_words ["SLATE"; "CRATE"; "CRANE"] "CRATE"
    [("C"%char, GREEN); ("R"%char, GREEN); ("A"%char, GREEN); ("T"%char, GRAY); ("E"%char, GREEN)]
    = Some ["CRANE"] /\
  (forall w, In w ["CRANE"] -> In w ["SLATE"; "CRATE"; "CRANE"]) /\
  (List.length ["CRANE"] <= List.length ["SLATE"; "CRATE"; "CRANE"])%nat.
Proof.
  assert (H : wordle_bot.filter_words ["SLATE"; "CRATE"; "CRANE"] "CRATE"
    [("C"%char, GREEN); ("R"%char, GREEN); ("A"%char, GREEN); ("T"%char, GRAY); ("E"%char, GREEN)]
    = Some ["CRANE"]) by (vm_compute; reflexivity).
  split; [exact H|]. exact (proj1 C6_filter_shrinks _ _ _ _ H).
Defined.

(** ** [make_guess] *)

Lemma update_one_keeps (s : game_state.Game) (i : nat) (e : letter * Color) :
  game_state.attempts (game_state.update_one s i e) = game_state.attempts s /\
  game_state.all_guesses (game_state.update_one s i e) = game_state.all_guesses s.
Proof.
  destruct e as [a c]. unfold game_state.update_one.
  destruct (game_state.hard_mode s), c; simpl; auto.
Qed.

Lemma update_loop_keeps (s : game_state.Game) (i : nat) (fb : Feedback) :
  game_state.attempts (game_state.update_loop s i fb) = game_state.attempts s /\
  game_state.all_guesses (game_state.update_loop s i fb) = game_state.all_guesses s.
Proof.
  revert s i; induction fb as [|e fb IH]; intros s i; cbn [game_state.update_loop]; [auto|].
  destruct (IH (game_state.update_one s i e) (S i)) as [H1 H2].
  destruct (update_one_keeps s i e) as [H3 H4].
  rewrite H1, H2, H3, H4. auto.
Qed.

(** C10: a rejected guess leaves the whole game state as it was; an
    accepted one raises [attempts] by one and appends one feedback row to
    [all_guesses]. *)
Theorem C10_make_guess_atomic (s : game_state.Game) (guess : string) :
  (forall s', game_state.make_guess s guess = Some (false, s') -> s' = s) /\
  (forall s', game_state.make_guess s guess = Some (true, s') ->
     game_state.attempts s' = S (game_state.attempts s) /\
     exists fb, game_state.all_guesses s' = app (game_state.all_guesses s) [fb]).
Proof.
  unfold game_state.make_guess.
  destruct (game_state.is_valid_guess s (upper (game_state.strip guess))) as [[|]|];
    [| split; intros s' H; inversion H; auto | split; intros s' H; discriminate].
  destruct (wordle_game.get_feedback (game_state.target s) (upper (game_state.strip guess)))
    as [fb|]; [|split; intros s' H; discriminate].
  split; intros s' H; inversion H; subst; clear H.
  destruct (update_loop_keeps (game_state.append_guess s fb) 0 fb) as [H1 H2].
  unfold game_state.update_keyboard_state.
  destruct (String.eqb _ _); simpl; rewrite H1, H2; simpl; eauto.
Qed.

Lemma C10_make_guess_atomic_witness :
  game_state.make_guess (game_state.new_game "SLATE" ["SLATE"; "CRANE"] false) "XYZZY"
    = Some (false, game_state.new_game "SLATE" ["SLATE"; "CRANE"] false) /\
  game_state.new_game "SLATE" ["SLATE"; "CRANE"] false
    = game_state.new_game "SLATE" ["SLATE"; "CRANE"] false.
Proof.
  assert (H : game_state.make_guess (game_state.new_game "SLATE" ["SLATE"; "CRANE"] false) "XYZZY"
    = Some (false, game_state.new_game "SLATE" ["SLATE"; "CRANE"] false)) by (vm_compute; reflexivity).
  split; [exact H|].
  exact (proj1 (C10_make_guess_atomic _ "XYZZY") _ H).
Defined.

(** ** [solve_with_game] on a rejected guess *)

(** C8 (refuted at a concrete input): a hard-mode game in which ZAZZZ was
    already played against BAAAA requires A at a GREEN position.  The bot
    (answer vocabulary BAAAA, CAAAA, DAAAA) picks BCQQQ, the game rejects
    it and its state is unchanged ([attempts] stays 1), yet
    [solve_with_game] reports 1 guess: the rejected guess was appended to
    [guesses] before [make_guess] was called. *)
Lemma C8_rejected_guess_counted :
  let la := ["BAAAA"; "CAAAA"; "DAAAA"] in
  let g0 := game_state.new_game "BAAAA" ["BAAAA"; "CAAAA"; "DAAAA"; "BCQQQ"; "ZAZZZ"] true in
  exists g1,
    game_state.make_guess g0 "ZAZZZ" = Some (true, g1) /\
    game_state.attempts g1 = 1%nat /\
    wordle_bot.choose_optimal_guess la (game_state.valid_guesses g1) = Some "BCQQQ" /\
    game_state.make_guess g1 "BCQQQ" = Some (false, g1) /\
    solve_game.solve_with_game la g1 = Some (1%nat, g1).
Proof.
  intros la g0. eexists.
  split; [vm_compute; reflexivity|].
  repeat split; vm_compute; reflexivity.
Qed.

(** ** Grouping targets by feedback *)

Lemma dict_incr_keys (k : Feedback) (d : list (Feedback * nat)) :
  map fst (wordle_bot.dict_incr k d)
  = if existsb (feedback_eqb k) (map fst d) then map fst d else app (map fst d) [k].
Proof.
  induction d as [|[k' c'] d IH]; simpl; [reflexivity|].
  destruct (feedback_eqb k k'); simpl; [reflexivity|].
  rewrite IH. destruct (existsb (feedback_eqb k) (map fst d)); reflexivity.
Qed.

Lemma dict_incr_nodup (k : Feedback) (d : list (Feedback * nat)) :
  NoDup (map fst d) -> NoDup (map fst (wordle_bot.dict_incr k d)).
Proof.
  intros Hnd. rewrite dict_incr_keys.
  destruct (existsb (feedback_eqb k) (map fst d)) eqn:E; [exact Hnd|].
  eapply Permutation_NoDup; [apply Permutation_cons_append|].
  constructor; [|exact Hnd].
  intros Hin. assert (existsb (feedback_eqb k) (map fst d) = true) as Hc.
  { apply existsb_exists. exists k. split; [exact Hin | apply feedback_eqb_eq; reflexivity]. }
  congruence.
Qed.

Lemma dict_incr_total (fb k : Feedback) (d : list (Feedback * nat)) :
  obs.dict_total (wordle_bot.dict_incr fb d) k
  = (obs.dict_total d k + (if feedback_eqb fb k then 1 else 0))%nat.
Proof.
  induction d as [|[k' c'] d IH]; simpl.
  - destruct (feedback_eqb fb k); reflexivity.
  - destruct (feedback_eqb fb k') eqn:E; simpl.
    + apply feedback_eqb_eq in E; subst.
      destruct (feedback_eqb k' k); lia.
    + rewrite IH. lia.
Qed.

Lemma dict_incr_pos (fb : Feedback) (d : list (Feedback * nat)) :
  (forall e, In e d -> (0 < snd e)%nat) ->
  forall e, In e (wordle_bot.dict_incr fb d) -> (0 < snd e)%nat.
Proof.
  induction d as [|[k' c'] d IH]; simpl; intros Hp e He.
  - destruct He as [<-|[]]; simpl; lia.
  - destruct (feedback_eqb fb k').
    + destruct He as [<-|He]; simpl; [lia | auto].
    + destruct He as [<-|He]; [apply Hp; auto | apply IH; auto].
Qed.

Lemma dict_total_absent (d : list (Feedback * nat)) (k : Feedback) :
  ~ In k (map fst d) -> obs.dict_total d k = 0%nat.
Proof.
  induction d as [|[k' c'] d IH]; simpl; intros Hn; [reflexivity|].
  destruct (feedback_eqb k' k) eqn:E.
  - apply feedback_eqb_eq in E. exfalso; auto.
  - apply IH. auto.
Qed.

Lemma dict_in_iff (d : list (Feedback * nat)) :
  NoDup (map fst d) -> (forall e, In e d -> (0 < snd e)%nat) ->
  forall k c, In (k, c) d <-> c = obs.dict_total d k /\ (0 < c)%nat.
Proof.
  induction d as [|[k' c'] d IH]; simpl; intros Hnd Hp k c.
  - split; [intros [] | lia].
  - inversion Hnd as [|x l Hnin Hnd']; subst.
    assert (Hc' : (0 < c')%nat) by (apply (Hp (k', c')); auto).
    destruct (feedback_eqb k' k) eqn:E.
    + apply feedback_eqb_eq in E; subst.
      rewrite (dict_total_absent d k Hnin).
      split.
      * intros [H|H]; [inversion H; subst; lia|].
        exfalso. apply Hnin. apply (in_map fst) in H. exact H.
      * intros [-> _]. left. f_equal. lia.
    + rewrite (IH Hnd' (fun e He => Hp e (or_intror He))). simpl.
      split.
      * intros [H|H]; [|exact H]. inversion H; subst.
        rewrite (proj2 (feedback_eqb_eq k k) eq_refl) in E. discriminate.
      * intros H. right. exact H.
Qed.

Lemma bucket_size_snoc (g : string) (S0 : list string) (t : string) (fb k : Feedback) :
  wordle_bot.get_feedback g t = Some fb ->
  obs.bucket_size g (app S0 [t]) k
  = (obs.bucket_size g S0 k + (if feedback_eqb fb k then 1 else 0))%nat.
Proof.
  intros H. unfold obs.bucket_size. rewrite filter_app, length_app. simpl.
  rewrite H. destruct (feedback_eqb fb k); reflexivity.
Qed.

Lemma count_loop_inv (g : string) (S S0 : list string) (d counts : list (Feedback * nat)) :
  wordle_bot.count_loop g S d = Some counts ->
  NoDup (map fst d) -> (forall e, In e d -> (0 < snd e)%nat) ->
  (forall k, obs.dict_total d k = obs.bucket_size g S0 k) ->
  NoDup (map fst counts) /\ (forall e, In e counts -> (0 < snd e)%nat) /\
  (forall k, obs.dict_total counts k = obs.bucket_size g (app S0 S) k).
Proof.
  revert S0 d; induction S as [|t S IH]; intros S0 d H Hnd Hp Ht; simpl in H.
  - inversion H; subst. rewrite app_nil_r. auto.
  - destruct (wordle_bot.get_feedback g t) as [fb|] eqn:Ef; [|discriminate].
    replace (app S0 (t :: S)) with (app (app S0 [t]) S) by (rewrite <- app_assoc; reflexivity).
    apply (IH _ _ H).
    + apply dict_incr_nodup; exact Hnd.
    + apply dict_incr_pos; exact Hp.
    + intros k. rewrite dict_incr_total, (bucket_size_snoc g S0 t fb k Ef), Ht. reflexivity.
Qed.

Lemma feedback_counts_buckets (g : string) (S : list string) counts :
  wordle_bot.feedback_counts g S = Some counts ->
  NoDup (map fst counts) /\
  (forall k c, In (k, c) counts <-> c = obs.bucket_size g S k /\ (0 < c)%nat).
Proof.
  intros H.
  destruct (count_loop_inv g S [] [] counts H) as (Hnd & Hp & Ht).
  - constructor.
  - intros e [].
  - intros k. reflexivity.
  - split; [exact Hnd|]. intros k c. rewrite (dict_in_iff counts Hnd Hp). rewrite Ht. reflexivity.
Qed.

Lemma fold_expected (n : nat) (l : list (Feedback * nat)) (a : Q) :
  fold_left (wordle_bot.expected_step n) l a
  == a + obs.sumQ (map (fun e => wordle_bot.Q_of_nat (snd e) / wordle_bot.Q_of_nat n
                                 * wordle_bot.Q_of_nat (snd e)) l).
Proof.
  revert a; induction l as [|e l IH]; intros a; simpl.
  - ring.
  - rewrite IH. unfold wordle_bot.expected_step. ring.
Qed.

(** C5: [_calculate_expected_remaining(g, S)] is the sum over the feedback
    buckets of [(c / n) * c], [n = |S|]: the dict it builds has one entry
    per feedback value met, holding the size [c > 0] of that value's bucket.
    It is 0 on the empty set and 1 on a singleton; [_calculate_entropy] is
    0 on the empty set. *)
Theorem C5_expected_remaining (g : string) (S : list string) :
  (forall r, wordle_bot.calculate_expected_remaining g S = Some r ->
     exists counts, wordle_bot.feedback_counts g S = Some counts /\
       NoDup (map fst counts) /\
       (forall k c, In (k, c) counts <-> c = obs.bucket_size g S k /\ (0 < c)%nat) /\
       r == obs.sumQ (map (fun e => wordle_bot.Q_of_nat (snd e)
                                    / wordle_bot.Q_of_nat (List.length S)
                                    * wordle_bot.Q_of_nat (snd e)) counts)) /\
  wordle_bot.calculate_expected_remaining g [] = Some 0 /\
  (forall w, (String.length g <= String.length w)%nat ->
     exists r, wordle_bot.calculate_expected_remaining g [w] = Some r /\ r == 1) /\
  wordle_bot_entropy.calculate_entropy g [] = Some 0%R.
Proof.
  split; [|split; [reflexivity|split; [|reflexivity]]].
  - intros r H. unfold wordle_bot.calculate_expected_remaining in H.
    destruct S as [|t S'].
    + inversion H; subst. exists []. split; [reflexivity|].
      split; [constructor|]. split; [|reflexivity].
      intros k c. unfold obs.bucket_size. simpl. split; [intros []|lia].
    + destruct (wordle_bot.feedback_counts g (t :: S')) as [counts|] eqn:E; [|discriminate].
      inversion H; subst. exists counts. split; [reflexivity|].
      destruct (feedback_counts_buckets g (t :: S') counts E) as [Hnd Hin].
      split; [exact Hnd|]. split; [exact Hin|].
      rewrite fold_expected, Qplus_0_l. reflexivity.
  - intros w Hw. destruct (bot_get_feedback_defined g w Hw) as [fb Hfb].
    unfold wordle_bot.calculate_expected_remaining, wordle_bot.feedback_counts.
    simpl. rewrite Hfb. eexists; split; [reflexivity|].
    vm_compute. reflexivity.
Qed.

Lemma C5_expected_remaining_witness :
  (exists r, wordle_bot.calculate_expected_remaining "CRANE" ["SLATE"] = Some r /\ r == 1) /\
  (exists r, wordle_bot.calculate_expected_remaining "BAAAA" ["BAAAA"; "CAAAA"; "DAAAA"] = Some r /\
     r == 5 # 3).
Proof.
  split.
  - apply (proj1 (proj2 (proj2 (C5_expected_remaining "CRANE" [])))). reflexivity.
  - destruct (proj1 (C5_expected_remaining "BAAAA" ["BAAAA"; "CAAAA"; "DAAAA"]) (15 # 9))
      as (counts & Hc & _ & _ & Hr).
    { vm_compute. reflexivity. }
    exists (15 # 9). split; [vm_compute; reflexivity|]. vm_compute. reflexivity.
Defined.

(** ** Guess selection *)

Lemma count_loop_defined (g : string) (S : list string) (d : list (Feedback * nat)) :
  (forall t, In t S -> exists fb, wordle_bot.get_feedback g t = Some fb) ->
  exists counts, wordle_bot.count_loop g S d = Some counts.
Proof.
  revert d; induction S as [|t S IH]; intros d H; simpl; [eauto|].
  destruct (H t (or_introl eq_refl)) as [fb ->].
  apply IH. intros t' Ht'. apply H. right. exact Ht'.
Qed.

Lemma score_defined (P : list string) (c : string) :
  (forall t, In t P -> (String.length c <= String.length t)%nat) ->
  exists s, wordle_bot.score P c = Some s.
Proof.
  intros H. unfold wordle_bot.score, wordle_bot.calculate_expected_remaining.
  destruct P as [|t P']; [eauto|].
  unfold wordle_bot.feedback_counts.
  destruct (count_loop_defined c (t :: P') [])  as [counts ->]; [|eauto].
  intros t' Ht'. apply bot_get_feedback_defined. apply H. exact Ht'.
Qed.

Lemma lt_best_some (s b : Q) : wordle_bot.lt_best s (Some b) = true <-> s < b.
Proof.
  unfold wordle_bot.lt_best. split.
  - intros H. apply Qnot_le_lt. intros Hle.
    apply Qle_bool_iff in Hle. rewrite Hle in H. discriminate.
  - intros H. destruct (Qle_bool b s) eqn:E; [|reflexivity].
    apply Qle_bool_iff in E. exfalso. apply (Qlt_not_le s b H E).
Qed.

(** The scoring loop, started from a best score [b], ends either on its
    starting guess (nothing scores below [b]) or on the first candidate
    whose score is minimal and below [b]. *)
Lemma score_loop_first_min (P l : list string) (bg : option string) (b : Q) :
  (forall c, In c l -> exists s, wordle_bot.score P c = Some s) ->
  (wordle_bot.score_loop P l bg (Some b) = Some bg /\
   forall c, In c l -> exists s, wordle_bot.score P c = Some s /\ b <= s) \/
  (exists x sx pre post,
     l = app pre (x :: post) /\ wordle_bot.score P x = Some sx /\ sx < b /\
     wordle_bot.score_loop P l bg (Some b) = Some (Some x) /\
     (forall c, In c pre -> exists s, wordle_bot.score P c = Some s /\ sx < s) /\
     (forall c, In c post -> exists s, wordle_bot.score P c = Some s /\ sx <= s)).
Proof.
  revert bg b; induction l as [|c l IH]; intros bg b Hdef.
  - left. split; [reflexivity | intros c []].
  - destruct (Hdef c (or_introl eq_refl)) as [s Hs].
    assert (Hdef' : forall c', In c' l -> exists s', wordle_bot.score P c' = Some s')
      by (intros c' H; apply Hdef; right; exact H).
    cbn [wordle_bot.score_loop]. rewrite Hs.
    destruct (wordle_bot.lt_best s (Some b)) eqn:Elt.
    + apply lt_best_some in Elt.
      destruct (IH (Some c) s Hdef') as [[Hr Hall] | (x & sx & pre & post & Hl & Hx & Hlt & Hr & Hpre & Hpost)].
      * right. exists c, s, [], l. repeat split; auto.
        all: try (intros ? []).
      * right. exists x, sx, (c :: pre), post. subst l. repeat split; auto.
        -- apply (Qlt_trans _ s); assumption.
        -- intros c' [<-|Hc']; [exists s; split; auto | apply Hpre; exact Hc'].
    + assert (Hle : b <= s).
      { apply Qnot_lt_le. intros Hlt. apply lt_best_some in Hlt. congruence. }
      destruct (IH bg b Hdef') as [[Hr Hall] | (x & sx & pre & post & Hl & Hx & Hlt & Hr & Hpre & Hpost)].
      * left. split; [exact Hr|]. intros c' [<-|Hc']; [exists s; split; auto | apply Hall; exact Hc'].
      * right. exists x, sx, (c :: pre), post. subst l. repeat split; auto.
        intros c' [<-|Hc']; [exists s; split; [exact Hs | apply (Qlt_le_trans _ b); assumption]
                            | apply Hpre; exact Hc'].
Qed.

Lemma dedup_loop_in (seen l : list string) (x : string) :
  In x (wordle_bot.dedup_loop seen l) -> In x l.
Proof.
  revert seen; induction l as [|w l IH]; intros seen; simpl; [auto|].
  destruct (existsb (String.eqb w) seen).
  - intros H. right. eapply IH; exact H.
  - intros [<-|H]; [left; reflexivity | right; eapply IH; exact H].
Qed.

Lemma candidates_in (P V : list string) (x : string) :
  In x (wordle_bot.candidates_of P V) -> In x (app P V).
Proof.
  unfold wordle_bot.candidates_of.
  destruct (List.length P <=? 2)%nat; intros H; [apply in_or_app; auto | eapply dedup_loop_in; exact H].
Qed.

Lemma candidates_nonempty (P V : list string) :
  P <> [] -> wordle_bot.candidates_of P V <> [].
Proof.
  unfold wordle_bot.candidates_of. destruct P as [|w P]; [congruence|]. intros _.
  destruct (List.length (w :: P) <=? 2)%nat; simpl; congruence.
Qed.

Lemma nonempty_word (x : string) : String.length x = 5%nat -> String.eqb x "" = false.
Proof. destruct x; simpl; [discriminate | reflexivity]. Qed.

(** C4: for a non-empty set of possible targets and words of length 5,
    [_choose_optimal_guess] returns the first candidate of its pool whose
    score [expected_remaining + (0 if possible else 1/2)] is minimal: every
    earlier candidate scores strictly more, every later one at least as
    much.  With at most two possible targets the pool is the possible
    targets themselves.  (Scores are exact rationals here; the code uses
    floats.) *)
Theorem C4_choose_first_min (P V : list string) :
  P <> [] -> Forall (fun w => String.length w = 5%nat) (app P V) ->
  exists r sr pre post,
    wordle_bot.choose_optimal_guess P V = Some r /\
    wordle_bot.candidates_of P V = app pre (r :: post) /\
    wordle_bot.score P r = Some sr /\
    (forall c, In c pre -> exists sc, wordle_bot.score P c = Some sc /\ sr < sc) /\
    (forall c, In c post -> exists sc, wordle_bot.score P c = Some sc /\ sr <= sc) /\
    ((List.length P <= 2)%nat -> wordle_bot.candidates_of P V = P).
Proof.
  intros Hne Hall. rewrite Forall_forall in Hall.
  assert (Hpool : (List.length P <= 2)%nat -> wordle_bot.candidates_of P V = P).
  { intros H. unfold wordle_bot.candidates_of. apply Nat.leb_le in H. rewrite H. reflexivity. }
  assert (Hcl : forall c, In c (wordle_bot.candidates_of P V) -> String.length c = 5%nat).
  { intros c Hc. apply Hall. apply candidates_in with (V := V). exact Hc. }
  assert (Hdef : forall c, In c (wordle_bot.candidates_of P V) ->
                           exists s, wordle_bot.score P c = Some s).
  { intros c Hc. apply score_defined. intros t Ht.
    rewrite (Hcl c Hc), (Hall t (in_or_app _ _ _ (or_introl Ht))). lia. }
  unfold wordle_bot.choose_optimal_guess.
  destruct (List.length P =? 1)%nat eqn:E1.
  - apply Nat.eqb_eq in E1.
    destruct P as [|w [|w' P']]; simpl in E1; try discriminate.
    assert (Hc : wordle_bot.candidates_of [w] V = [w]) by (apply Hpool; simpl; lia).
    rewrite Hc in Hdef. destruct (Hdef w (or_introl eq_refl)) as [sw Hsw].
    exists w, sw, [], []. repeat split; auto; intros ? [].
  - destruct (wordle_bot.candidates_of P V) as [|c l] eqn:Ec;
      [exfalso; exact (candidates_nonempty P V Hne Ec)|].
    destruct (Hdef c (or_introl eq_refl)) as [s Hs].
    cbn [wordle_bot.score_loop]. rewrite Hs. cbn [wordle_bot.lt_best].
    assert (Hdef' : forall c', In c' l -> exists s', wordle_bot.score P c' = Some s')
      by (intros c' H; apply Hdef; right; exact H).
    destruct (score_loop_first_min P l (Some c) s Hdef')
      as [[Hr Hl] | (x & sx & pre & post & Hl & Hx & Hlt & Hr & Hpre & Hpost)].
    + rewrite Hr, (nonempty_word c (Hcl c (or_introl eq_refl))).
      exists c, s, [], l. repeat split; auto; intros ? [].
    + rewrite Hr.
      assert (Hxin : In x (c :: l)) by (right; subst l; apply in_or_app; right; left; reflexivity).
      rewrite (nonempty_word x (Hcl x Hxin)).
      exists x, sx, (c :: pre), post. subst l. repeat split; auto.
      intros c' [<-|Hc']; [exists s; split; auto | apply Hpre; exact Hc'].
Qed.

Lemma C4_choose_first_min_witness :
  ["BAAAA"; "CAAAA"; "DAAAA"] <> [] /\
  Forall (fun w => String.length w = 5%nat)
    (app ["BAAAA"; "CAAAA"; "DAAAA"] ["BCQQQ"; "ZAZZZ"]) /\
  wordle_bot.choose_optimal_guess ["BAAAA"; "CAAAA"; "DAAAA"] ["BCQQQ"; "ZAZZZ"] = Some "BCQQQ" /\
  exists r sr pre post,
    wordle_bot.choose_optimal_guess ["BAAAA"; "CAAAA"; "DAAAA"] ["BCQQQ"; "ZAZZZ"] = Some r /\
    wordle_bot.candidates_of ["BAAAA"; "CAAAA"; "DAAAA"] ["BCQQQ"; "ZAZZZ"] = app pre (r :: post) /\
    wordle_bot.score ["BAAAA"; "CAAAA"; "DAAAA"] r = Some sr /\
    (forall c, In c pre -> exists sc, wordle_bot.score ["BAAAA"; "CAAAA"; "DAAAA"] c = Some sc /\ sr < sc) /\
    (forall c, In c post -> exists sc, wordle_bot.score ["BAAAA"; "CAAAA"; "DAAAA"] c = Some sc /\ sr <= sc) /\
    ((List.length ["BAAAA"; "CAAAA"; "DAAAA"] <= 2)%nat ->
       wordle_bot.candidates_of ["BAAAA"; "CAAAA"; "DAAAA"] ["BCQQQ"; "ZAZZZ"] = ["BAAAA"; "CAAAA"; "DAAAA"]).
Proof.
  assert (Hne : ["BAAAA"; "CAAAA"; "DAAAA"] <> []) by discriminate.
  assert (Hf : Forall (fun w => String.length w = 5%nat)
                 (app ["BAAAA"; "CAAAA"; "DAAAA"] ["BCQQQ"; "ZAZZZ"]))
    by (repeat constructor).
  split; [exact Hne|]. split; [exact Hf|]. split; [vm_compute; reflexivity|].
  exact (C4_choose_first_min _ _ Hne Hf).
Defined.

(* ================================================================== *)
(** * Further properties of the code *)

(** ** The two feedback engines *)

Lemma green_passes_shape (gl tl : list letter) fb tl' gl' :
  wordle_game.green_pass gl tl = Some (fb, tl', gl') ->
  exists row, wordle.green_pass gl tl = Some (row, tl', gl') /\ obs.green_shape fb gl' row.
Proof.
  revert tl fb tl' gl'; induction gl as [|g gl IH]; intros [|t tl] fb tl' gl' H;
    simpl in H; try discriminate.
  1, 2: inversion H; subst; exists []; split; [reflexivity | constructor].
  destruct (wordle_game.green_pass gl tl) as [[[fb0 tl0] gl0]|] eqn:E; [|discriminate].
  destruct (IH tl fb0 tl0 gl0 E) as (row & Hrow & Hsh).
  simpl. rewrite Hrow.
  destruct (Ascii.eqb g t); inversion H; subst; eexists; split; try reflexivity;
    constructor; exact Hsh.
Qed.

Lemma yellow_passes_perm fb gl row (tl : list (option letter)) :
  obs.green_shape fb gl row ->
  Permutation (obs.as_row (app fb (wordle_game.yellow_pass gl tl))) (wordle.yellow_pass gl row tl).
Proof.
  intros Hsh. revert tl; induction Hsh as [|g fb gl row Hsh IH|g fb gl row Hsh IH]; intros tl.
  - reflexivity.
  - simpl. constructor. apply IH.
  - cbn [wordle_game.yellow_pass wordle.yellow_pass].
    destruct (mem_opt g tl); unfold obs.as_row in *; rewrite map_app; simpl;
      (eapply perm_trans; [apply Permutation_sym, Permutation_middle|]);
      constructor; rewrite <- map_app; apply IH.
Qed.

(** The bot's engine ([wordle_game.py]) and the engine of [wordle.py]
    return the same entries, in a different order at most. *)
Theorem engines_same_entries (target guess : string) f r :
  wordle_game.get_feedback target guess = Some f ->
  wordle.get_feedback target guess = Some r ->
  Permutation (obs.as_row f) r.
Proof.
  unfold wordle_game.get_feedback, wordle.get_feedback.
  destruct (wordle_game.green_pass (list_ascii_of_string guess) (list_ascii_of_string target))
    as [[[fb tl'] gl']|] eqn:E; [|discriminate].
  destruct (green_passes_shape _ _ _ _ _ E) as (row & Hrow & Hsh).
  rewrite Hrow. intros H1 H2. inversion H1; inversion H2; subst.
  apply yellow_passes_perm. exact Hsh.
Qed.

Lemma engines_same_entries_witness :
  exists f r, wordle_game.get_feedback "ERASE" "SPEED" = Some f /\
    wordle.get_feedback "ERASE" "SPEED" = Some r /\ Permutation (obs.as_row f) r.
Proof.
  do 2 eexists. split; [vm_compute; reflexivity|]. split; [vm_compute; reflexivity|].
  apply (engines_same_entries "ERASE" "SPEED"); vm_compute; reflexivity.
Defined.

Lemma green_pass_self (xs : list letter) :
  wordle_game.green_pass xs xs
  = Some (map (fun a => (a, GREEN)) xs, map (fun _ => None) xs, map (fun _ => None) xs).
Proof.
  induction xs as [|x xs IH]; [reflexivity|].
  simpl. rewrite IH, Ascii.eqb_refl. reflexivity.
Qed.

Lemma yellow_pass_nones (ys : list letter) (tl : list (option letter)) :
  wordle_game.yellow_pass (map (fun _ => None) ys) tl = [].
Proof. induction ys; simpl; auto. Qed.

Lemma green_pass_all_cleared (gl tl : list letter) fb tl' gl' :
  List.length gl = List.length tl ->
  wordle_game.green_pass gl tl = Some (fb, tl', gl') ->
  obs.somes gl' = [] -> gl = tl.
Proof.
  revert tl fb tl' gl'; induction gl as [|g gl IH]; intros [|t tl] fb tl' gl' Hlen H Hs;
    simpl in *; try discriminate; [reflexivity|].
  destruct (wordle_game.green_pass gl tl) as [[[fb0 tl0] gl0]|] eqn:E; [|discriminate].
  destruct (Ascii.eqb g t) eqn:Eg; inversion H; subst; simpl in Hs; [|discriminate].
  apply Ascii.eqb_eq in Eg; subst. f_equal. eapply IH; eauto.
Qed.

Lemma forallb_green_nil (f : Feedback) :
  filter obs.is_green f = [] -> forallb obs.is_green f = true -> f = [].
Proof.
  destruct f as [|e f]; [reflexivity|]. simpl.
  destruct (obs.is_green e); simpl; discriminate.
Qed.

(** A row is all GREEN exactly when the guess is the target (for words of
    the same length); the target against itself gets one GREEN entry per
    letter, in order. *)
Theorem all_green_iff_target (target guess : string) (fb : Feedback) :
  String.length guess = String.length target ->
  wordle_game.get_feedback target guess = Some fb ->
  (forallb obs.is_green fb = true <-> guess = target) /\
  (guess = target -> fb = map (fun a => (a, GREEN)) (list_ascii_of_string target)).
Proof.
  intros Hlen H.
  assert (Hself : guess = target -> fb = map (fun a => (a, GREEN)) (list_ascii_of_string target)).
  { intros ->. unfold wordle_game.get_feedback in H. rewrite green_pass_self in H.
    rewrite yellow_pass_nones, app_nil_r in H. inversion H; reflexivity. }
  split; [|exact Hself]. split.
  - intros Hall. unfold wordle_game.get_feedback in H.
    destruct (wordle_game.green_pass (list_ascii_of_string guess) (list_ascii_of_string target))
      as [[[fb0 tl'] gl']|] eqn:E; [|discriminate].
    inversion H; subst fb. clear H.
    rewrite forallb_app in Hall. apply andb_prop in Hall as [_ Hy].
    destruct (yellow_pass_shape gl' tl') as [Hfst Hgr].
    pose proof (forallb_green_nil _ Hgr Hy) as Hnil.
    rewrite Hnil in Hfst. simpl in Hfst.
    rewrite <- (string_of_list_ascii_of_string guess), <- (string_of_list_ascii_of_string target).
    f_equal. eapply green_pass_all_cleared; [| exact E | symmetry; exact Hfst].
    rewrite !length_list_ascii. exact Hlen.
  - intros Heq. rewrite (Hself Heq). clear. induction (list_ascii_of_string target); simpl; auto.
Qed.

Lemma all_green_iff_target_witness :
  exists fb, wordle_game.get_feedback "CRANE" "CRANE" = Some fb /\
    (forallb obs.is_green fb = true <-> "CRANE" = "CRANE") /\
    ("CRANE" = "CRANE" -> fb = map (fun a => (a, GREEN)) (list_ascii_of_string "CRANE")).
Proof.
  eexists. split; [vm_compute; reflexivity|].
  apply (all_green_iff_target "CRANE" "CRANE"); vm_compute; reflexivity.
Defined.

(** ** Sets of words in the bot *)

Lemma existsb_eqb_in (w : string) (s : list string) :
  existsb (String.eqb w) s = true <-> In w s.
Proof.
  rewrite existsb_exists. split.
  - intros (x & Hx & E). apply String.eqb_eq in E. subst. exact Hx.
  - intros H. exists w. split; [exact H | apply String.eqb_refl].
Qed.

Lemma dedup_loop_spec (seen l : list string) :
  NoDup (wordle_bot.dedup_loop seen l) /\
  (forall x, In x (wordle_bot.dedup_loop seen l) <-> In x l /\ ~ In x seen).
Proof.
  revert seen; induction l as [|w l IH]; intros seen; simpl.
  - split; [constructor | intros x; tauto].
  - destruct (existsb (String.eqb w) seen) eqn:E.
    + apply existsb_eqb_in in E. destruct (IH seen) as [Hnd Hin]. split; [exact Hnd|].
      intros x. rewrite Hin. split; [tauto|].
      intros [[<-|Hx] Hs]; [contradiction | tauto].
    + destruct (IH (w :: seen)) as [Hnd Hin]. split.
      * constructor; [|exact Hnd]. rewrite Hin. simpl. tauto.
      * intros x. simpl. rewrite Hin. simpl.
        assert (~ In w seen) by (rewrite <- existsb_eqb_in; congruence).
        split; [intros [<-|[Hx Hs]]; tauto|].
        intros [[<-|Hx] Hs]; [left; reflexivity|].
        destruct (String.eqb_spec w x); [left; exact e | right; tauto].
Qed.

(** The candidate pool of [_choose_optimal_guess]: with at most two
    possible words it is exactly those words; otherwise it holds every
    possible word and every valid guess, each once. *)
Theorem candidates_pool (P V : list string) :
  ((List.length P <= 2)%nat -> wordle_bot.candidates_of P V = P) /\
  ((2 < List.length P)%nat ->
     NoDup (wordle_bot.candidates_of P V) /\
     forall x, In x (wordle_bot.candidates_of P V) <-> In x P \/ In x V).
Proof.
  unfold wordle_bot.candidates_of. split.
  - intros H. apply Nat.leb_le in H. rewrite H. reflexivity.
  - intros H. apply Nat.leb_gt in H. rewrite H.
    destruct (dedup_loop_spec [] (app P V)) as [Hnd Hin]. split; [exact Hnd|].
    intros x. rewrite Hin, in_app_iff. simpl. tauto.
Qed.

Lemma candidates_pool_witness :
  NoDup (wordle_bot.candidates_of ["SLATE"; "CRANE"; "TRACE"] ["CRANE"; "ZZZZZ"]) /\
  (forall x, In x (wordle_bot.candidates_of ["SLATE"; "CRANE"; "TRACE"] ["CRANE"; "ZZZZZ"])
     <-> In x ["SLATE"; "CRANE"; "TRACE"] \/ In x ["CRANE"; "ZZZZZ"]).
Proof.
  apply (proj2 (candidates_pool ["SLATE"; "CRANE"; "TRACE"] ["CRANE"; "ZZZZZ"])). simpl. lia.
Defined.

Lemma set_add_spec (x w : string) (s : list string) :
  (In w (wordle_bot.set_add x s) <-> In w s \/ w = x) /\
  (NoDup s -> NoDup (wordle_bot.set_add x s)).
Proof.
  unfold wordle_bot.set_add. destruct (existsb (String.eqb x) s) eqn:E.
  - apply existsb_eqb_in in E. split; [|auto]. split; [auto|]. intros [H| ->]; auto.
  - split.
    + rewrite in_app_iff. simpl. intuition.
    + intros Hnd. apply NoDup_app; [exact Hnd | repeat constructor; simpl; tauto |].
      intros y Hy [<-|[]]. apply (proj2 (existsb_eqb_in x s)) in Hy. congruence.
Qed.

Lemma filter_loop_spec (ws : list string) (g : string) (f : Feedback) (acc r : list string) :
  wordle_bot.filter_loop ws g f acc = Some r -> NoDup acc ->
  NoDup r /\
  (forall w, In w r <-> In w acc \/ (In w ws /\ wordle_bot.matches_feedback w g f = Some true)).
Proof.
  revert acc; induction ws as [|x ws IH]; intros acc H Hnd; simpl in H.
  - inversion H; subst. split; [exact Hnd | simpl; tauto].
  - destruct (wordle_bot.matches_feedback x g f) as [[|]|] eqn:Ex; [| |discriminate].
    + destruct (set_add_spec x x acc) as [_ Hnd'].
      destruct (IH _ H (Hnd' Hnd)) as [Hr Hin]. split; [exact Hr|].
      intros w. rewrite Hin. rewrite (proj1 (set_add_spec x w acc)). simpl.
      split; [intros [[Ha| ->]|Hb]; tauto|].
      intros [Ha|[[<-|Hw] Hm]]; tauto.
    + destruct (IH _ H Hnd) as [Hr Hin]. split; [exact Hr|].
      intros w. rewrite Hin. simpl. split; [tauto|].
      intros [Ha|[[<-|Hw] Hm]]; [tauto | congruence | tauto].
Qed.

(** [_filter_words] returns each word of its input for which
    [_matches_feedback] says True, each once, and nothing else. *)
Theorem filter_words_exact (S : list string) (g : string) (f : Feedback) (S' : list string) :
  wordle_bot.filter_words S g f = Some S' ->
  NoDup S' /\
  (forall w, In w S' <-> In w S /\ wordle_bot.matches_feedback w g f = Some true).
Proof.
  intros H. destruct (filter_loop_spec S g f [] S' H (NoDup_nil _)) as [Hnd Hin].
  split; [exact Hnd|]. intros w. rewrite Hin. simpl. tauto.
Qed.

Lemma filter_words_exact_witness :
  exists S', wordle_bot.filter_words ["SLATE"; "CRANE"; "CRANE"; "TRACE"] "CRANE"
      [("C"%char, GRAY); ("R"%char, GREEN); ("A"%char, GREEN); ("N"%char, GRAY); ("E"%char, GREEN)]
      = Some S' /\
    NoDup S' /\
    (forall w, In w S' <-> In w ["SLATE"; "CRANE"; "CRANE"; "TRACE"] /\
       wordle_bot.matches_feedback w "CRANE"
         [("C"%char, GRAY); ("R"%char, GREEN); ("A"%char, GREEN); ("N"%char, GRAY); ("E"%char, GREEN)]
       = Some true).
Proof.
  eexists. split; [vm_compute; reflexivity|].
  apply filter_words_exact. vm_compute. reflexivity.
Defined.

(** ** G/Y/X feedback codes *)



Lemma code_char_roundtrip (c : ascii) :
  feedback_code.is_code_char c = true ->
  feedback_code.char_of_color (feedback_code.color_of_char c) = c.
Proof.
  unfold feedback_code.is_code_char, feedback_code.color_of_char.
  destruct (Ascii.eqb_spec c "G"%char); [subst; reflexivity|].
  destruct (Ascii.eqb_spec c "Y"%char); [subst; reflexivity|].
  destruct (Ascii.eqb_spec c "X"%char); [subst; reflexivity|]. discriminate.
Qed.


Lemma parse_loop_spec (gl cs : list ascii) :
  forallb feedback_code.is_code_char cs = true ->
  (List.length cs <= List.length gl)%nat ->
  exists fb, feedback_code.parse_loop gl cs = Some fb /\
    map (fun e => feedback_code.char_of_color (snd e)) fb = cs /\
    map fst fb = firstn (List.length cs) gl.
Proof.
  revert gl; induction cs as [|c cs IH]; intros [|g gl] Hc Hlen; simpl in *; try lia.
  - exists []. auto.
  - exists []. auto.
  - apply andb_prop in Hc as [Hc Hcs].
    destruct (IH gl Hcs ltac:(lia)) as (fb & Hp & H1 & H2).
    rewrite Hp. eexists. split; [reflexivity|]. simpl.
    rewrite H1, H2, code_char_roundtrip by exact Hc. split; reflexivity.
Qed.

(** A G/Y/X code accepted by the format check, read against a guess of at
    least five letters, gives a row with the guess's first five letters
    that prints back as the upper-cased code. *)
Theorem feedback_code_roundtrip (guess code : string) :
  feedback_code.valid_code code = true ->
  (5 <= String.length guess)%nat ->
  exists fb, feedback_code.parse_feedback guess code = Some fb /\
    feedback_code.render_feedback fb = upper code /\
    map fst fb = firstn 5 (list_ascii_of_string guess).
Proof.
  unfold feedback_code.valid_code, feedback_code.parse_feedback, feedback_code.render_feedback.
  intros H Hg. apply andb_prop in H as [H5 Hc]. apply Nat.eqb_eq in H5.
  assert (Hl : List.length (list_ascii_of_string (upper code)) = 5%nat)
    by (rewrite length_list_ascii, length_upper; exact H5).
  destruct (parse_loop_spec (list_ascii_of_string guess) _ Hc) as (fb & Hp & H1 & H2).
  { rewrite Hl, length_list_ascii. exact Hg. }
  exists fb. split; [exact Hp|]. rewrite H1, string_of_list_ascii_of_string, H2, Hl.
  split; reflexivity.
Qed.

Lemma feedback_code_roundtrip_witness :
  exists fb, feedback_code.parse_feedback "CRANE" "gyxxG" = Some fb /\
    feedback_code.render_feedback fb = upper "gyxxG" /\
    map fst fb = firstn 5 (list_ascii_of_string "CRANE").
Proof. apply feedback_code_roundtrip; vm_compute; reflexivity. Defined.



(** ** Hard mode: the check and its message *)

Lemma string_get_lt (p : nat) (s : string) :
  (p < String.length s)%nat -> exists c, String.get p s = Some c.
Proof.
  revert p; induction s as [|c s IH]; intros p H; simpl in *; [lia|].
  destruct p; [eauto | apply IH; lia].
Qed.

Lemma assoc_in {K V} (eqb : K -> K -> bool) (k : K) (v : V) (d : list (K * V)) :
  game_state.assoc eqb k d = Some v -> exists k', In (k', v) d.
Proof.
  induction d as [|[k' v'] d IH]; simpl; [discriminate|].
  destruct (eqb k k'); [intros H; inversion H; subst; eauto|].
  intros H. destruct (IH H) as [k'' Hk]. eauto.
Qed.

Lemma green_errors_check (guess : string) (gs : list (nat * letter)) :
  (forall p L, In (p, L) gs -> (p < String.length guess)%nat) ->
  exists errs b, hard_mode_msg.green_errors guess gs = Some errs /\
    game_state.check_greens guess gs = Some b /\ (errs = [] <-> b = true).
Proof.
  induction gs as [|[p L] gs IH]; intros Hr; simpl.
  - exists [], true. tauto.
  - destruct (string_get_lt p guess (Hr p L (or_introl eq_refl))) as [c ->].
    destruct IH as (errs & b & -> & -> & Hiff); [intros; eapply Hr; right; eauto|].
    destruct (Ascii.eqb c L); simpl.
    + exists errs, b. tauto.
    + eexists _, false. split; [reflexivity|]. split; [reflexivity|]. split; discriminate.
Qed.

Lemma position_errors_check (guess : string) (L : letter) (ps : list nat) :
  (forall p, In p ps -> (p < String.length guess)%nat) ->
  exists errs b, hard_mode_msg.position_errors guess L ps = Some errs /\
    game_state.check_yellow_positions guess L ps = Some b /\ (errs = [] <-> b = true).
Proof.
  induction ps as [|p ps IH]; intros Hr; simpl.
  - exists [], true. tauto.
  - destruct (string_get_lt p guess (Hr p (or_introl eq_refl))) as [c ->].
    destruct IH as (errs & b & -> & -> & Hiff); [intros; eapply Hr; right; eauto|].
    destruct (Ascii.eqb c L).
    + eexists _, false. split; [reflexivity|]. split; [reflexivity|]. split; discriminate.
    + exists errs, b. tauto.
Qed.

Lemma yellow_errors_check (s : game_state.Game) (guess : string) (ys : list letter) :
  (forall L ps p, In (L, ps) (game_state.yellow_positions s) -> In p ps ->
     (p < String.length guess)%nat) ->
  exists errs b, hard_mode_msg.yellow_errors s guess ys = Some errs /\
    game_state.check_yellows s guess ys = Some b /\ (errs = [] <-> b = true).
Proof.
  intros Hr. induction ys as [|L ys IH]; simpl.
  - exists [], true. tauto.
  - destruct IH as (e2 & b2 & -> & Hc2 & Hiff2).
    destruct (game_state.char_in L guess); simpl.
    + destruct (game_state.assoc Ascii.eqb L (game_state.yellow_positions s)) as [ps|] eqn:Ea.
      * destruct (assoc_in _ _ _ _ Ea) as [L' HL'].
        destruct (position_errors_check guess L ps) as (e1 & b1 & -> & -> & Hiff1);
          [intros p Hp; eapply Hr; eauto|].
        destruct b1.
        -- assert (e1 = []) as -> by tauto. exists e2, b2. simpl. tauto.
        -- eexists _, false. split; [reflexivity|]. split; [reflexivity|].
           split; [|discriminate]. intros H. apply app_eq_nil in H. tauto.
      * exists e2, b2. simpl. tauto.
    + eexists _, false. split; [reflexivity|]. split; [reflexivity|]. split; discriminate.
Qed.

(** [_get_hard_mode_error] returns the empty message exactly when
    [_is_valid_hard_mode] accepts the guess, as long as every recorded
    position is inside the guess (otherwise both index out of range). *)
Theorem hard_mode_error_consistent (s : game_state.Game) (guess : string) :
  (forall p L, In (p, L) (game_state.required_green_positions s) ->
     (p < String.length guess)%nat) ->
  (forall L ps p, In (L, ps) (game_state.yellow_positions s) -> In p ps ->
     (p < String.length guess)%nat) ->
  exists msg b, hard_mode_msg.get_hard_mode_error s guess = Some msg /\
    game_state.is_valid_hard_mode s guess = Some b /\ (msg = "" <-> b = true).
Proof.
  intros Hg Hy. unfold hard_mode_msg.get_hard_mode_error, game_state.is_valid_hard_mode.
  destruct (green_errors_check guess _ Hg) as (e1 & b1 & -> & -> & Hi1).
  destruct (yellow_errors_check s guess (game_state.required_yellow_letters s) Hy)
    as (e2 & b2 & -> & -> & Hi2).
  destruct b1.
  - assert (e1 = []) as -> by tauto. simpl.
    destruct e2 as [|e e2].
    + exists "", b2. tauto.
    + eexists _, b2. split; [reflexivity|]. split; [reflexivity|].
      split; [discriminate|]. intros Hb. apply Hi2 in Hb. discriminate.
  - destruct e1 as [|e e1]; [destruct Hi1 as [H _]; discriminate (H eq_refl)|].
    eexists _, false. split; [reflexivity|]. split; [reflexivity|]. split; discriminate.
Qed.

Lemma hard_mode_error_consistent_witness :
  exists msg b,
    hard_mode_msg.get_hard_mode_error
      (game_state.mkGame "BAAAA" [] 1 6 [] [] 0 false true [(1%nat, "A"%char)] ["Z"%char]
         [("Z"%char, [0%nat])]) "ZQQQQ" = Some msg /\
    game_state.is_valid_hard_mode
      (game_state.mkGame "BAAAA" [] 1 6 [] [] 0 false true [(1%nat, "A"%char)] ["Z"%char]
         [("Z"%char, [0%nat])]) "ZQQQQ" = Some b /\ (msg = "" <-> b = true).
Proof.
  apply hard_mode_error_consistent.
  - intros p L [H|[]]. inversion H; subst. simpl. lia.
  - intros L ps p [H|[]] Hp. inversion H; subst. destruct Hp as [<-|[]]. simpl. lia.
Defined.

(** ** [make_guess] in detail *)

Lemma upper_char_idem (c : ascii) : upper_char (upper_char c) = upper_char c.
Proof. destruct c as [[] [] [] [] [] [] [] []]; reflexivity. Qed.

Lemma upper_idem (s : string) : upper (upper s) = upper s.
Proof. induction s as [|c s IH]; simpl; [reflexivity|]. rewrite upper_char_idem, IH. reflexivity. Qed.

Lemma update_one_fields (s : game_state.Game) (i : nat) (e : letter * Color) :
  let s' := game_state.update_one s i e in
  game_state.target s' = game_state.target s /\
  game_state.valid_guesses s' = game_state.valid_guesses s /\
  game_state.attempts s' = game_state.attempts s /\
  game_state.max_attempts s' = game_state.max_attempts s /\
  game_state.all_guesses s' = game_state.all_guesses s /\
  game_state.won s' = game_state.won s /\
  game_state.hard_mode s' = game_state.hard_mode s /\
  (game_state.hard_mode s = false ->
     game_state.required_green_positions s' = game_state.required_green_positions s /\
     game_state.required_yellow_letters s' = game_state.required_yellow_letters s /\
     game_state.yellow_positions s' = game_state.yellow_positions s).
Proof.
  destruct e as [a c]. unfold game_state.update_one. simpl.
  destruct (game_state.hard_mode s) eqn:H, c; simpl; repeat split; auto; discriminate.
Qed.

Lemma update_loop_fields (s : game_state.Game) (i : nat) (fb : Feedback) :
  let s' := game_state.update_loop s i fb in
  game_state.target s' = game_state.target s /\
  game_state.valid_guesses s' = game_state.valid_guesses s /\
  game_state.attempts s' = game_state.attempts s /\
  game_state.max_attempts s' = game_state.max_attempts s /\
  game_state.all_guesses s' = game_state.all_guesses s /\
  game_state.won s' = game_state.won s /\
  game_state.hard_mode s' = game_state.hard_mode s /\
  (game_state.hard_mode s = false ->
     game_state.required_green_positions s' = game_state.required_green_positions s /\
     game_state.required_yellow_letters s' = game_state.required_yellow_letters s /\
     game_state.yellow_positions s' = game_state.yellow_positions s).
Proof.
  revert s i; induction fb as [|e fb IH]; intros s i; cbn [game_state.update_loop].
  - repeat split; auto.
  - destruct (update_one_fields s i e) as (H1 & H2 & H3 & H4 & H5 & H6 & H7 & H8).
    destruct (IH (game_state.update_one s i e) (S i)) as (I1 & I2 & I3 & I4 & I5 & I6 & I7 & I8).
    rewrite I1, I2, I3, I4, I5, I6, I7, H1, H2, H3, H4, H5, H6, H7.
    do 7 (split; [reflexivity|]). intros Hh.
    destruct (I8 ltac:(congruence)) as (J1 & J2 & J3). destruct (H8 Hh) as (K1 & K2 & K3).
    rewrite J1, J2, J3, K1, K2, K3. auto.
Qed.

(** A guess is accepted exactly when, stripped and upper-cased, it has five
    letters, is alphabetic, is in the vocabulary and, in hard mode, meets
    the recorded constraints.  The accepted guess's row is the engine's
    feedback for the normalised guess; the game is won when that guess is
    the target; the target, vocabulary, attempt limit and mode do not
    change, and [attempts] goes up by one. *)
Theorem make_guess_accepted (s : game_state.Game) (g : string) :
  (String.length (game_state.target s) = 5)%nat ->
  let guess := upper (game_state.strip g) in
  ((exists s', game_state.make_guess s g = Some (true, s')) <->
   (String.length guess = 5%nat /\ game_state.isalpha guess = true /\
    In guess (game_state.valid_guesses s) /\
    (game_state.hard_mode s = true -> game_state.is_valid_hard_mode s guess = Some true))) /\
  (forall s', game_state.make_guess s g = Some (true, s') ->
     exists fb, wordle_game.get_feedback (game_state.target s) guess = Some fb /\
       game_state.all_guesses s' = app (game_state.all_guesses s) [fb] /\
       game_state.won s' = game_state.won s || String.eqb guess (game_state.target s) /\
       game_state.attempts s' = S (game_state.attempts s) /\
       game_state.target s' = game_state.target s /\
       game_state.valid_guesses s' = game_state.valid_guesses s /\
       game_state.max_attempts s' = game_state.max_attempts s /\
       game_state.hard_mode s' = game_state.hard_mode s).
Proof.
  intros Ht guess.
  assert (Hv : game_state.is_valid_guess s guess = Some true <->
     (String.length guess = 5%nat /\ game_state.isalpha guess = true /\
      In guess (game_state.valid_guesses s) /\
      (game_state.hard_mode s = true -> game_state.is_valid_hard_mode s guess = Some true))).
  { unfold game_state.is_valid_guess. subst guess. rewrite upper_idem.
    set (w := upper (game_state.strip g)).
    destruct (Nat.eqb_spec (String.length w) 5); simpl;
      [|split; [discriminate | tauto]].
    destruct (game_state.isalpha w); simpl; [|split; [discriminate | intuition discriminate]].
    destruct (existsb (String.eqb w) (game_state.valid_guesses s)) eqn:Ev; simpl;
      rewrite <- existsb_eqb_in, Ev;
      [|split; [discriminate | intuition discriminate]].
    destruct (game_state.hard_mode s); intuition discriminate. }
  assert (Hm : forall s', game_state.make_guess s g = Some (true, s') ->
     game_state.is_valid_guess s guess = Some true /\
     exists fb, wordle_game.get_feedback (game_state.target s) guess = Some fb /\
       s' = game_state.incr_attempts
              (let s2 := game_state.update_keyboard_state (game_state.append_guess s fb) fb in
               if String.eqb guess (game_state.target s2) then game_state.set_won s2 else s2)).
  { intros s' H. unfold game_state.make_guess in H. fold guess in H.
    destruct (game_state.is_valid_guess s guess) as [[|]|]; try discriminate.
    destruct (wordle_game.get_feedback (game_state.target s) guess) as [fb|]; [|discriminate].
    inversion H; subst. split; [reflexivity|]. eauto. }
  split.
  - split.
    + intros [s' H]. apply Hv, (Hm s' H).
    + intros Hc. apply Hv in Hc. unfold game_state.make_guess. fold guess. rewrite Hc.
      destruct (get_feedback_defined (game_state.target s) guess) as [fb ->].
      { pose proof (proj1 (proj1 Hv Hc)) as H5. lia. }
      eauto.
  - intros s' H. destruct (Hm s' H) as (_ & fb & Hfb & ->). exists fb. split; [exact Hfb|].
    unfold game_state.update_keyboard_state.
    destruct (update_loop_fields (game_state.append_guess s fb) 0 fb)
      as (H1 & H2 & H3 & H4 & H5 & H6 & H7 & _).
    change (game_state.target (game_state.append_guess s fb)) with (game_state.target s) in H1.
    cbv zeta. rewrite H1. simpl in H2, H3, H4, H5, H6, H7.
    destruct (String.eqb guess (game_state.target s)); simpl;
      rewrite ?H1, ?H2, ?H3, ?H4, ?H5, ?H6, ?H7; simpl;
      rewrite ?orb_true_r, ?orb_false_r; repeat split; reflexivity.
Qed.

Lemma make_guess_accepted_witness :
  exists s', game_state.make_guess (game_state.new_game "SLATE" ["SLATE"; "CRANE"] false) " crane"
             = Some (true, s').
Proof.
  apply (proj2 (proj1 (make_guess_accepted
    (game_state.new_game "SLATE" ["SLATE"; "CRANE"] false) " crane" eq_refl))).
  split; [vm_compute; reflexivity|]. split; [vm_compute; reflexivity|].
  split; [vm_compute; right; left; reflexivity|]. intros H; discriminate H.
Defined.

(** ** Keyboard state *)

Lemma assoc_dict_set (k k' : letter) (v : Color) (d : list (letter * Color)) :
  game_state.assoc Ascii.eqb k (game_state.dict_set Ascii.eqb k' v d)
  = if Ascii.eqb k k' then Some v else game_state.assoc Ascii.eqb k d.
Proof.
  induction d as [|[k0 v0] d IH]; simpl.
  - destruct (Ascii.eqb k k'); reflexivity.
  - destruct (Ascii.eqb_spec k' k0) as [<-|Hne]; simpl.
    + destruct (Ascii.eqb k k'); reflexivity.
    + rewrite IH. destruct (Ascii.eqb_spec k k0) as [->|]; [|reflexivity].
      destruct (Ascii.eqb_spec k0 k'); [congruence | reflexivity].
Qed.

Lemma assoc_some_existsb (k : letter) (v : Color) (d : list (letter * Color)) :
  game_state.assoc Ascii.eqb k d = Some v -> existsb (fun p => Ascii.eqb k (fst p)) d = true.
Proof.
  induction d as [|[k0 v0] d IH]; simpl; [discriminate|].
  destruct (Ascii.eqb k k0); simpl; auto.
Qed.

Lemma update_one_green (L : letter) (s : game_state.Game) (i : nat) (e : letter * Color) :
  game_state.assoc Ascii.eqb L (game_state.guessed_letters s) = Some GREEN ->
  game_state.assoc Ascii.eqb L (game_state.guessed_letters (game_state.update_one s i e)) = Some GREEN.
Proof.
  intros H. destruct e as [a c]. unfold game_state.update_one.
  set (gl := if negb (existsb (fun p => Ascii.eqb (upper_char a) (fst p)) (game_state.guessed_letters s))
               || Color_eqb c GREEN
             then game_state.dict_set Ascii.eqb (upper_char a) c (game_state.guessed_letters s)
             else game_state.guessed_letters s).
  assert (Hgl : game_state.assoc Ascii.eqb L gl = Some GREEN).
  { subst gl. destruct (Ascii.eqb_spec L (upper_char a)) as [<-|Hne].
    - rewrite (assoc_some_existsb _ _ _ H). simpl.
      destruct c; simpl; [rewrite assoc_dict_set, Ascii.eqb_refl; reflexivity | exact H | exact H].
    - destruct (_ || _); [|exact H].
      rewrite assoc_dict_set. destruct (Ascii.eqb_spec L (upper_char a)); [congruence | exact H]. }
  destruct (game_state.hard_mode s), c; exact Hgl.
Qed.

Lemma update_loop_green (L : letter) (s : game_state.Game) (i : nat) (fb : Feedback) :
  game_state.assoc Ascii.eqb L (game_state.guessed_letters s) = Some GREEN ->
  game_state.assoc Ascii.eqb L (game_state.guessed_letters (game_state.update_loop s i fb)) = Some GREEN.
Proof.
  revert s i; induction fb as [|e fb IH]; intros s i H; cbn [game_state.update_loop]; [exact H|].
  apply IH, update_one_green, H.
Qed.

(** A key shown GREEN on the keyboard stays GREEN after any guess, accepted
    or rejected: [_update_keyboard_state] overwrites a known letter only with
    GREEN. *)
Theorem keyboard_green_stays (s s' : game_state.Game) (g : string) (b : bool) (L : letter) :
  game_state.assoc Ascii.eqb L (game_state.guessed_letters s) = Some GREEN ->
  game_state.make_guess s g = Some (b, s') ->
  game_state.assoc Ascii.eqb L (game_state.guessed_letters s') = Some GREEN.
Proof.
  intros H Hm. unfold game_state.make_guess in Hm.
  destruct (game_state.is_valid_guess s _) as [[|]|]; [| inversion Hm; subst; exact H | discriminate].
  destruct (wordle_game.get_feedback _ _) as [fb|]; [|discriminate].
  inversion Hm; subst; clear Hm.
  assert (H2 : game_state.assoc Ascii.eqb L
     (game_state.guessed_letters (game_state.update_keyboard_state (game_state.append_guess s fb) fb))
     = Some GREEN) by (apply update_loop_green; exact H).
  destruct (String.eqb _ _); exact H2.
Qed.

Lemma keyboard_green_stays_witness :
  exists s', game_state.make_guess
    (game_state.mkGame "SLATE" ["SLATE"; "CRANE"] 1 6 [("A"%char, GREEN)] [] 0 false false [] [] [])
    "CRANE" = Some (true, s') /\
    game_state.assoc Ascii.eqb "A"%char (game_state.guessed_letters s') = Some GREEN.
Proof.
  eexists. split; [vm_compute; reflexivity|].
  eapply (keyboard_green_stays
    (game_state.mkGame "SLATE" ["SLATE"; "CRANE"] 1 6 [("A"%char, GREEN)] [] 0 false false [] [] [])
    _ "CRANE" true "A"%char); vm_compute; reflexivity.
Defined.

(** ** Hard mode in [make_guess] *)

Lemma check_greens_violation (guess : string) (gs : list (nat * letter)) (p : nat) (L : letter) :
  (forall p' L', In (p', L') gs -> (p' < String.length guess)%nat) ->
  In (p, L) gs -> String.get p guess <> Some L ->
  game_state.check_greens guess gs = Some false.
Proof.
  intros Hr Hin Hne. induction gs as [|[p0 L0] gs IH]; [destruct Hin|]. simpl.
  destruct (string_get_lt p0 guess (Hr p0 L0 (or_introl eq_refl))) as [c Hc]. rewrite Hc.
  destruct (Ascii.eqb_spec c L0) as [->|]; simpl; [|reflexivity].
  destruct Hin as [E|Hin]; [inversion E; subst; contradiction|].
  apply IH; [intros; eapply Hr; right; eauto | exact Hin].
Qed.

Lemma check_yellows_missing (s : game_state.Game) (guess : string) (ys : list letter) (L : letter) :
  (forall L' ps p, In (L', ps) (game_state.yellow_positions s) -> In p ps ->
     (p < String.length guess)%nat) ->
  In L ys -> game_state.char_in L guess = false ->
  game_state.check_yellows s guess ys = Some false.
Proof.
  intros Hr Hin Hc. induction ys as [|L0 ys IH]; [destruct Hin|]. simpl.
  destruct (game_state.char_in L0 guess) eqn:E0; simpl; [|reflexivity].
  assert (Hrest : game_state.check_yellows s guess ys = Some false).
  { destruct Hin as [<-|Hin]; [congruence | apply IH, Hin]. }
  destruct (game_state.assoc Ascii.eqb L0 (game_state.yellow_positions s)) as [ps|] eqn:Ea;
    [|exact Hrest].
  destruct (assoc_in _ _ _ _ Ea) as [L' HL'].
  destruct (position_errors_check guess L0 ps) as (_ & b & _ & -> & _);
    [intros p Hp; eapply Hr; eauto|].
  destruct b; [exact Hrest | reflexivity].
Qed.

Lemma valid_guess_hard_false (s : game_state.Game) (g : string) :
  game_state.hard_mode s = true ->
  game_state.is_valid_hard_mode s (upper (game_state.strip g)) = Some false ->
  game_state.make_guess s g = Some (false, s).
Proof.
  intros Hh Hv. unfold game_state.make_guess, game_state.is_valid_guess.
  rewrite upper_idem, Hh, Hv.
  destruct (negb _); [reflexivity|]. destruct (negb _); [reflexivity|].
  destruct (negb _); reflexivity.
Qed.

(** In hard mode, with the recorded positions inside a five-letter word, a
    guess that leaves a recorded GREEN letter out of its position, or that
    does not contain a recorded YELLOW letter, is rejected and changes
    nothing. *)
Theorem hard_mode_rejects (s : game_state.Game) (g : string) :
  game_state.hard_mode s = true ->
  (forall p L, In (p, L) (game_state.required_green_positions s) -> (p < 5)%nat) ->
  (forall L ps p, In (L, ps) (game_state.yellow_positions s) -> In p ps -> (p < 5)%nat) ->
  ((exists p L, In (p, L) (game_state.required_green_positions s) /\
      String.get p (upper (game_state.strip g)) <> Some L) \/
   (exists L, In L (game_state.required_yellow_letters s) /\
      game_state.char_in L (upper (game_state.strip g)) = false)) ->
  game_state.make_guess s g = Some (false, s).
Proof.
  intros Hh Hg Hy Hviol.
  destruct (Nat.eqb_spec (String.length (upper (game_state.strip g))) 5) as [H5|H5].
  - apply valid_guess_hard_false; [exact Hh|]. unfold game_state.is_valid_hard_mode.
    destruct Hviol as [(p & L & Hin & Hne)|(L & Hin & Hc)].
    + rewrite (check_greens_violation _ _ p L) by (rewrite ?H5; eauto). reflexivity.
    + destruct (green_errors_check (upper (game_state.strip g)) (game_state.required_green_positions s))
        as (_ & b & _ & -> & _); [intros; rewrite H5; eauto|].
      destruct b; [|reflexivity].
      apply (check_yellows_missing _ _ _ L); [intros; rewrite H5; eauto | exact Hin | exact Hc].
  - unfold game_state.make_guess, game_state.is_valid_guess.
    apply Nat.eqb_neq in H5. rewrite H5. reflexivity.
Qed.

Lemma hard_mode_rejects_witness :
  game_state.make_guess
    (game_state.mkGame "BAAAA" ["BAAAA"; "BCQQQ"] 1 6 [] [] 0 false true [(1%nat, "A"%char)] [] [])
    "bcqqq"
  = Some (false,
      game_state.mkGame "BAAAA" ["BAAAA"; "BCQQQ"] 1 6 [] [] 0 false true [(1%nat, "A"%char)] [] []).
Proof.
  apply hard_mode_rejects.
  - reflexivity.
  - intros p L [H|[]]. inversion H. lia.
  - intros L ps p [].
  - left. exists 1%nat, "A"%char. split; [left; reflexivity | vm_compute; discriminate].
Defined.

(** ** Bounds on the two scores *)

Lemma list_sum_dict_incr (fb : Feedback) (d : list (Feedback * nat)) :
  list_sum (map snd (wordle_bot.dict_incr fb d)) = S (list_sum (map snd d)).
Proof.
  induction d as [|[k c] d IH]; simpl; [reflexivity|].
  destruct (feedback_eqb fb k); simpl; [reflexivity|]. rewrite IH. lia.
Qed.

Lemma count_loop_sum (g : string) (S : list string) (d counts : list (Feedback * nat)) :
  wordle_bot.count_loop g S d = Some counts ->
  list_sum (map snd counts) = (list_sum (map snd d) + List.length S)%nat.
Proof.
  revert d; induction S as [|t S IH]; intros d H; simpl in H.
  - inversion H; subst. simpl. lia.
  - destruct (wordle_bot.get_feedback g t) as [fb|]; [|discriminate].
    rewrite (IH _ H), list_sum_dict_incr. simpl. lia.
Qed.

Lemma in_list_sum_le (e : Feedback * nat) (l : list (Feedback * nat)) :
  In e l -> (snd e <= list_sum (map snd l))%nat.
Proof.
  induction l as [|x l IH]; simpl; [intros []|].
  intros [<-|H]; [lia | specialize (IH H); lia].
Qed.









Lemma entropy_fold_nonneg (n : nat) (l : list (Feedback * nat)) (acc : R) :
  (0 <= acc)%R -> (forall e, In e l -> (snd e <= n)%nat) ->
  (0 <= fold_left (wordle_bot_entropy.entropy_step n) l acc)%R.
Proof.
  revert acc; induction l as [|e l IH]; intros acc Hacc Hle; simpl; [exact Hacc|].
  apply IH; [|intros; apply Hle; right; assumption].
  unfold wordle_bot_entropy.entropy_step, wordle_bot_entropy.log2.
  destruct (Rlt_dec 0 (INR (snd e) / INR n)) as [Hp|]; [|exact Hacc].
  set (p := (INR (snd e) / INR n)%R) in *.
  assert (He : (snd e <= n)%nat) by (apply Hle; left; reflexivity).
  assert (Hp1 : (p <= 1)%R).
  { subst p. destruct n as [|n'].
    - simpl. unfold Rdiv. rewrite Rinv_0, Rmult_0_r. lra.
    - assert (HnR : (0 < INR (S n'))%R) by (apply lt_0_INR; lia).
      unfold Rdiv. apply (Rmult_le_reg_r (INR (S n'))); [exact HnR|].
      rewrite Rmult_assoc, Rinv_l by lra. rewrite Rmult_1_r, Rmult_1_l.
      apply le_INR. exact He. }
  assert (Hln : (ln p <= 0)%R).
  { rewrite <- ln_1. destruct (Rle_lt_or_eq_dec p 1 Hp1) as [Hlt| ->].
    - left. apply ln_increasing; assumption.
    - right. reflexivity. }
  assert (Hln2 : (0 < ln 2)%R) by (rewrite <- ln_1; apply ln_increasing; lra).
  assert (Hi : (0 < / ln 2)%R) by (apply Rinv_0_lt_compat; exact Hln2).
  assert (Hprod : (0 <= p * / ln 2 * - ln p)%R).
  { apply Rmult_le_pos; [apply Rmult_le_pos; lra | lra]. }
  unfold Rdiv. replace (p * (ln p * / ln 2))%R with (- (p * / ln 2 * - ln p))%R by ring.
  lra.
Qed.

(** [_calculate_entropy] never returns a negative value. *)
Theorem entropy_nonneg (g : string) (S : list string) (h : R) :
  wordle_bot_entropy.calculate_entropy g S = Some h -> (0 <= h)%R.
Proof.
  unfold wordle_bot_entropy.calculate_entropy. destruct S as [|t S'].
  - intros H. inversion H. lra.
  - destruct (wordle_bot.feedback_counts g (t :: S')) as [counts|] eqn:E; [|discriminate].
    intros H. inversion H; subst h; clear H.
    pose proof (count_loop_sum g (t :: S') [] counts E) as Hsum. simpl in Hsum.
    apply entropy_fold_nonneg; [lra|].
    intros e He. pose proof (in_list_sum_le e counts He). simpl. lia.
Qed.

Lemma entropy_nonneg_witness :
  exists h, wordle_bot_entropy.calculate_entropy "CRANE" ["SLATE"; "CRANE"] = Some h /\ (0 <= h)%R.
Proof.
  eexists. split; [reflexivity|]. apply (entropy_nonneg "CRANE" ["SLATE"; "CRANE"]). reflexivity.
Defined.

(** ** Guess count of [solve_with_game] *)






(** ** [_matches_feedback] on rows in position order *)

Lemma wshape_of_green_pass (G T : list letter) row tl gl :
  List.length G = List.length T ->
  wordle.green_pass G T = Some (row, tl, gl) -> obs.wshape G T row tl gl.
Proof.
  revert T row tl gl; induction G as [|g G IH]; intros [|t T] row tl gl Hlen H;
    simpl in *; try discriminate.
  - inversion H; subst. constructor.
  - destruct (wordle.green_pass G T) as [[[row0 tl0] gl0]|] eqn:E; [|discriminate].
    destruct (Ascii.eqb_spec g t) as [<-|Hne]; inversion H; subst; constructor; auto.
Qed.

Lemma wshape_facts G T row tl gl :
  obs.wshape G T row tl gl ->
  List.length row = List.length gl /\
  (forall k g, nth_error gl k = Some (Some g) ->
     nth_error G k = Some g /\ exists x, nth_error tl k = Some x /\ x <> Some g) /\
  (forall k, nth_error gl k = Some None ->
     exists g, nth_error G k = Some g /\ nth_error row k = Some (g, Some GREEN)).
Proof.
  induction 1 as [|g G T row tl gl Hs IH|g t G T row tl gl Hne Hs IH].
  - split; [reflexivity|]. split; intros [|k]; discriminate.
  - destruct IH as (H1 & H2 & H3). split; [simpl; lia|]. split.
    + intros [|k] x Hk; simpl in *; [discriminate | apply H2, Hk].
    + intros [|k] Hk; simpl in *; [eauto | apply H3, Hk].
  - destruct IH as (H1 & H2 & H3). split; [simpl; lia|]. split.
    + intros [|k] x Hk; simpl in *.
      * inversion Hk; subst. split; [reflexivity|]. exists (Some t). split; [reflexivity|congruence].
      * apply H2, Hk.
    + intros [|k] Hk; simpl in *; [discriminate | apply H3, Hk].
Qed.

Lemma green_loop_shift (k : nat) (f : Feedback) (g0 : letter) (G : list letter)
    (w0 : option letter) (W : list (option letter)) :
  wordle_bot.green_loop (S k) f (g0 :: G) (w0 :: W)
  = match wordle_bot.green_loop k f G W with
    | wordle_bot.Next W' => wordle_bot.Next (w0 :: W')
    | o => o
    end.
Proof.
  revert k W; induction f as [|[a c] f IH]; intros k W; simpl; [reflexivity|].
  destruct c; try apply IH.
  destruct (nth_error W k) as [w|]; [|reflexivity].
  destruct (nth_error G k) as [g|]; [|reflexivity].
  destruct (negb (wordle_bot.opt_letter_eqb w g)); [reflexivity|]. apply IH.
Qed.

Lemma green_loop_wshape G T row tl gl (f : Feedback) :
  obs.wshape G T row tl gl ->
  Forall2 (fun s e => s = None <-> snd e = GREEN) gl f ->
  wordle_bot.green_loop 0 f G (map Some T) = wordle_bot.Next tl.
Proof.
  intros Hs. revert f.
  induction Hs as [|g G T row tl gl Hs IH|g t G T row tl gl Hne Hs IH];
    intros f Hf; inversion Hf as [|s e gl' f' He Hf']; subst.
  - reflexivity.
  - destruct e as [a c]. simpl in He. destruct He as [He _]. rewrite (He eq_refl).
    simpl. rewrite Ascii.eqb_refl. simpl. rewrite green_loop_shift, (IH f' Hf'). reflexivity.
  - destruct e as [a c]. simpl in He.
    assert (Hc : c <> GREEN) by (intros ->; destruct He as [_ He]; discriminate (He eq_refl)).
    destruct c; [contradiction| |]; simpl; rewrite green_loop_shift, (IH f' Hf'); reflexivity.
Qed.

Lemma mem_opt_clear_first (g x : letter) (tl : list (option letter)) :
  mem_opt x (clear_first g tl) = true -> mem_opt x tl = true.
Proof.
  induction tl as [|[y|] tl IH]; simpl; auto.
  destruct (Ascii.eqb g y); simpl; intros H; [rewrite H; apply orb_true_r|].
  apply orb_true_iff in H as [H|H]; [rewrite H; reflexivity | rewrite (IH H); apply orb_true_r].
Qed.

Lemma nth_clear_first (g : letter) (tl : list (option letter)) (j : nat) (x : option letter) :
  nth_error tl j = Some x ->
  exists x', nth_error (clear_first g tl) j = Some x' /\ (x' = x \/ x' = None).
Proof.
  revert j; induction tl as [|[y|] tl IH]; intros [|j] H; simpl in *; try discriminate.
  - inversion H; subst. destruct (Ascii.eqb g y); eauto.
  - destruct (Ascii.eqb g y); simpl; eauto.
  - inversion H; subst. eauto.
  - eauto.
Qed.

Lemma yellow_loop_positional (gls : list (option letter)) (rows : wordle.Row) (G : list letter)
    (TL : list (option letter)) (i : nat) :
  List.length rows = List.length gls ->
  (forall k g, nth_error gls k = Some (Some g) ->
     nth_error G (i + k) = Some g /\ exists x, nth_error TL (i + k) = Some x /\ x <> Some g) ->
  (forall k, nth_error gls k = Some None ->
     exists g, nth_error G (i + k) = Some g /\ nth_error rows k = Some (g, Some GREEN)) ->
  exists f TLf,
    wordle.yellow_pass gls rows TL = obs.as_row f /\
    wordle_bot.yellow_loop i f G TL = wordle_bot.Next TLf /\
    Forall2 (fun s e => s = None <-> snd e = GREEN) gls f /\
    (forall k e, nth_error f k = Some e -> nth_error G (i + k) = Some (fst e)) /\
    (forall x, mem_opt x TLf = true -> mem_opt x TL = true) /\
    (forall k g, nth_error f k = Some (g, GRAY) -> mem_opt g TLf = false).
Proof.
  revert rows TL i; induction gls as [|s gls IH]; intros rows TL i Hlen H1 H2.
  - destruct rows; [|discriminate]. exists [], TL. simpl.
    split; [reflexivity|]. split; [reflexivity|]. split; [constructor|].
    split; [intros [|k] e Hk; discriminate|]. split; [auto|]. intros [|k] g Hk; discriminate.
  - destruct rows as [|r0 rows]; [discriminate|]. simpl in Hlen.
    assert (Hsh : forall k, (i + S k = S i + k)%nat) by (intros; lia).
    destruct s as [g|].
    + destruct (H1 0%nat g eq_refl) as [HG0 (x & HT0 & Hx)]. rewrite Nat.add_0_r in HG0, HT0.
      simpl. destruct (mem_opt g TL) eqn:Em.
      * destruct (IH rows (clear_first g TL) (S i) ltac:(lia)) as (f & TLf & Hr & Hy & Hf & Hl & Hsub & Hg).
        { intros k g' Hk. destruct (H1 (S k) g' Hk) as [HG (x' & HT & Hx')]. rewrite Hsh in HG, HT.
          split; [exact HG|]. destruct (nth_clear_first g _ _ _ HT) as (x'' & H'' & [->| ->]).
          - eauto.
          - exists None. split; [exact H''|discriminate]. }
        { intros k Hk. rewrite <- Hsh. apply (H2 (S k) Hk). }
        exists ((g, YELLOW) :: f), TLf. split; [simpl; rewrite Hr; reflexivity|].
        split.
        { simpl. rewrite HG0, Em. simpl. rewrite HT0.
          replace (wordle_bot.opt_letter_eqb x g) with false; [exact Hy|].
          destruct x as [w|]; [|reflexivity]. simpl.
          destruct (Ascii.eqb_spec w g); [subst; contradiction | reflexivity]. }
        split; [constructor; [simpl; split; discriminate | exact Hf]|].
        split; [intros [|k] e Hk; simpl in Hk; [inversion Hk; subst; rewrite Nat.add_0_r; exact HG0
                                               | rewrite Hsh; apply Hl, Hk]|].
        split; [intros y Hy'; apply (mem_opt_clear_first g), Hsub, Hy'|].
        intros [|k] g' Hk; simpl in Hk; [inversion Hk | apply (Hg k g' Hk)].
      * destruct (IH rows TL (S i) ltac:(lia)) as (f & TLf & Hr & Hy & Hf & Hl & Hsub & Hg).
        { intros k g' Hk. rewrite <- !Hsh. apply (H1 (S k) g' Hk). }
        { intros k Hk. rewrite <- Hsh. apply (H2 (S k) Hk). }
        exists ((g, GRAY) :: f), TLf. split; [simpl; rewrite Hr; reflexivity|].
        split; [exact Hy|].
        split; [constructor; [simpl; split; discriminate | exact Hf]|].
        split; [intros [|k] e Hk; simpl in Hk; [inversion Hk; subst; rewrite Nat.add_0_r; exact HG0
                                               | rewrite Hsh; apply Hl, Hk]|].
        split; [exact Hsub|].
        intros [|k] g' Hk; simpl in Hk; [inversion Hk; subst | apply (Hg k g' Hk)].
        destruct (mem_opt g' TLf) eqn:E'; [|reflexivity]. rewrite (Hsub _ E') in Em. discriminate.
    + destruct (H2 0%nat eq_refl) as (g & HG0 & Hr0). rewrite Nat.add_0_r in HG0.
      simpl in Hr0. inversion Hr0; subst r0.
      destruct (IH rows TL (S i) ltac:(lia)) as (f & TLf & Hr & Hy & Hf & Hl & Hsub & Hg).
      { intros k g' Hk. rewrite <- !Hsh. apply (H1 (S k) g' Hk). }
      { intros k Hk. rewrite <- Hsh. apply (H2 (S k) Hk). }
      exists ((g, GREEN) :: f), TLf. split; [simpl; rewrite Hr; reflexivity|].
      split; [exact Hy|].
      split; [constructor; [simpl; tauto | exact Hf]|].
      split; [intros [|k] e Hk; simpl in Hk; [inversion Hk; subst; rewrite Nat.add_0_r; exact HG0
                                             | rewrite Hsh; apply Hl, Hk]|].
      split; [exact Hsub|].
      intros [|k] g' Hk; simpl in Hk; [inversion Hk | apply (Hg k g' Hk)].
Qed.

Lemma gray_loop_ok (f : Feedback) (G : list letter) (W : list (option letter)) (i : nat) :
  (forall k e, nth_error f k = Some e -> nth_error G (i + k) = Some (fst e)) ->
  (forall k g, nth_error f k = Some (g, GRAY) -> mem_opt g W = false) ->
  wordle_bot.gray_loop i f G W = wordle_bot.Next tt.
Proof.
  revert i; induction f as [|[a c] f IH]; intros i Hl Hg; simpl; [reflexivity|].
  assert (Hl' : forall k e, nth_error f k = Some e -> nth_error G (S i + k) = Some (fst e)).
  { intros k e Hk. replace (S i + k)%nat with (i + S k)%nat by lia. apply (Hl (S k) e Hk). }
  assert (Hg' : forall k g, nth_error f k = Some (g, GRAY) -> mem_opt g W = false)
    by (intros k g Hk; apply (Hg (S k) g Hk)).
  destruct c; try (apply IH; assumption).
  pose proof (Hl 0%nat (a, GRAY) eq_refl) as H0. rewrite Nat.add_0_r in H0. simpl in H0.
  rewrite H0, (Hg 0%nat a eq_refl). apply IH; assumption.
Qed.

(** [_matches_feedback] keeps the target when it is given the target's
    row in position order, as the [wordle.py] engine produces it: on
    such rows the bot's consistency filter never drops the answer. *)
Theorem positional_row_keeps_target (target guess : string) (r : wordle.Row) :
  String.length guess = String.length target ->
  wordle.get_feedback target guess = Some r ->
  exists f, r = obs.as_row f /\ wordle_bot.matches_feedback target guess f = Some true.
Proof.
  intros Hlen H. unfold wordle.get_feedback in H.
  destruct (wordle.green_pass (list_ascii_of_string guess) (list_ascii_of_string target))
    as [[[row tl] gl]|] eqn:E; [|discriminate].
  inversion H; subst r; clear H.
  assert (Hs : obs.wshape (list_ascii_of_string guess) (list_ascii_of_string target) row tl gl).
  { apply wshape_of_green_pass; [rewrite !length_list_ascii; exact Hlen | exact E]. }
  destruct (wshape_facts _ _ _ _ _ Hs) as (Hl & H1 & H2).
  destruct (yellow_loop_positional gl row (list_ascii_of_string guess) tl 0 Hl H1 H2)
    as (f & TLf & Hr & Hy & Hf & Hlet & _ & Hg).
  exists f. split; [exact Hr|].
  pose proof (green_loop_wshape _ _ _ _ _ f Hs Hf) as Hgr.
  pose proof (gray_loop_ok f _ TLf 0 Hlet Hg) as Hgy.
  unfold wordle_bot.matches_feedback. cbv zeta.
  match goal with
  | |- context [wordle_bot.green_loop 0 f ?G ?W] =>
      replace (wordle_bot.green_loop 0 f G W) with (@wordle_bot.Next (list (option letter)) tl)
  end.
  rewrite Hy, Hgy. reflexivity.
Qed.

Lemma positional_row_keeps_target_witness :
  exists r, wordle.get_feedback "SLATE" "CRANE" = Some r /\
    exists f, r = obs.as_row f /\ wordle_bot.matches_feedback "SLATE" "CRANE" f = Some true.
Proof.
  eexists. split; [reflexivity|].
  apply (positional_row_keeps_target "SLATE" "CRANE"); reflexivity.
Defined.
